(** * TravelMemory: the capture timeline, the voice session and the story
    generator of [src/App.tsx], as a shallow embedding.

    The React component keeps six pieces of state ([memories], [isRecording],
    [transcript], [generatedStory], [isGenerating], [currentLocation]) and
    mutates them only from event handlers that run one at a time.  Each handler
    is embedded as a function on a record of these six fields; what a handler
    reads from the host (the clock, the selected file, the locale date) is an
    explicit argument. *)

From Stdlib Require Import Strings.String Strings.Ascii.
From Stdlib Require Import NArith ZArith Bool Lia Numbers.DecimalZ.
From Stdlib Require Import List.
Import ListNotations.

Set Implicit Arguments.

(** ** The JavaScript values and built-ins the component uses *)

Module JS.

(** A JavaScript string is a sequence of UTF-16 code units. *)
Definition jsstring := list N.

(** *** String literals

    The literals of the source are written here as Rocq strings, which hold
    the UTF-8 bytes of the text; [lit] decodes them to code points and
    encodes each one in UTF-16. *)

Fixpoint utf8_decode (bs : list N) : list N :=
  match bs with
  | [] => []
  | b0 :: r0 =>
    if (b0 <? 128)%N then b0 :: utf8_decode r0
    else if (b0 <? 224)%N then
      match r0 with
      | b1 :: r1 =>
        N.lor (N.shiftl (N.land b0 31) 6) (N.land b1 63) :: utf8_decode r1
      | _ => []
      end
    else if (b0 <? 240)%N then
      match r0 with
      | b1 :: b2 :: r2 =>
        N.lor (N.shiftl (N.land b0 15) 12)
          (N.lor (N.shiftl (N.land b1 63) 6) (N.land b2 63)) :: utf8_decode r2
      | _ => []
      end
    else
      match r0 with
      | b1 :: b2 :: b3 :: r3 =>
        N.lor (N.shiftl (N.land b0 7) 18)
          (N.lor (N.shiftl (N.land b1 63) 12)
             (N.lor (N.shiftl (N.land b2 63) 6) (N.land b3 63))) :: utf8_decode r3
      | _ => []
      end
  end.

Definition utf16_encode (cp : N) : list N :=
  if (cp <? 65536)%N then [cp]
  else
    let c := (cp - 65536)%N in
    [(55296 + N.shiftr c 10)%N; (56320 + N.land c 1023)%N].

Definition lit (s : String.string) : jsstring :=
  flat_map utf16_encode
    (utf8_decode (map Ascii.N_of_ascii (String.list_ascii_of_string s))).

(** The line feed of a template literal that spans lines. *)
Definition LF : jsstring := [10%N].

(** *** [===] on strings, truthiness, [Array.prototype.join] *)

Fixpoint eqb (a b : jsstring) : bool :=
  match a, b with
  | [], [] => true
  | x :: a', y :: b' => N.eqb x y && eqb a' b'
  | _, _ => false
  end.

(** [if (s)] on a string: every string but the empty one is truthy. *)
Definition truthy (s : jsstring) : bool :=
  match s with [] => false | _ :: _ => true end.

Fixpoint join (sep : jsstring) (l : list jsstring) : jsstring :=
  match l with
  | [] => []
  | [x] => x
  | x :: r => x ++ sep ++ join sep r
  end.

(** *** [String.prototype.trim]

    ECMA-262 strips the code points of WhiteSpace (TAB, VT, FF, ZWNBSP and the
    Unicode space separators) and of LineTerminator (LF, CR, LS, PS) from both
    ends.  All of them lie in the basic plane, so the test is per code unit. *)
Definition isWhiteSpace (c : N) : bool :=
  ((9 <=? c) && (c <=? 13) || (c =? 32) || (c =? 160) || (c =? 5760)
   || (8192 <=? c) && (c <=? 8202) || (c =? 8232) || (c =? 8233)
   || (c =? 8239) || (c =? 8287) || (c =? 12288) || (c =? 65279))%N.

Fixpoint trimStart (s : jsstring) : jsstring :=
  match s with
  | c :: r => if isWhiteSpace c then trimStart r else s
  | [] => []
  end.

Definition trimEnd (s : jsstring) : jsstring := rev (trimStart (rev s)).

Definition trim (s : jsstring) : jsstring := trimEnd (trimStart s).

(** *** [Set] and [Array.from]

    A [Set] of strings keeps its elements in insertion order; [add] appends
    a value only when no equal one is present, and [new Set(iterable)] adds
    the elements of the iterable one by one.  [Array.from] lists the set in
    that order, so a set is represented by that list. *)
Definition Set_has (s : list jsstring) (x : jsstring) : bool :=
  existsb (eqb x) s.

Definition Set_add (s : list jsstring) (x : jsstring) : list jsstring :=
  if Set_has s x then s else s ++ [x].

Definition Set_new (xs : list jsstring) : list jsstring :=
  fold_left Set_add xs [].

Definition Array_from (s : list jsstring) : list jsstring := s.

(** *** Numbers in text

    [digits] is the decimal text of an integer-valued number, as
    [Number.prototype.toString] and template interpolation print it:
    [Date.now()] and [memories.length] are such numbers. *)
Fixpoint uint_digits (d : Decimal.uint) : jsstring :=
  match d with
  | Decimal.Nil => []
  | Decimal.D0 r => 48%N :: uint_digits r
  | Decimal.D1 r => 49%N :: uint_digits r
  | Decimal.D2 r => 50%N :: uint_digits r
  | Decimal.D3 r => 51%N :: uint_digits r
  | Decimal.D4 r => 52%N :: uint_digits r
  | Decimal.D5 r => 53%N :: uint_digits r
  | Decimal.D6 r => 54%N :: uint_digits r
  | Decimal.D7 r => 55%N :: uint_digits r
  | Decimal.D8 r => 56%N :: uint_digits r
  | Decimal.D9 r => 57%N :: uint_digits r
  end.

Definition int_digits (i : Decimal.int) : jsstring :=
  match i with
  | Decimal.Pos d => uint_digits d
  | Decimal.Neg d => 45%N :: uint_digits d
  end.

Definition digits (z : Z) : jsstring := int_digits (Z.to_int z).

(** [${a[0]}]: an index past the end reads [undefined], which a template
    prints as the word itself. *)
Definition interpolate (v : option jsstring) : jsstring :=
  match v with
  | Some s => s
  | None => lit "undefined"
  end.

End JS.

Import JS.

(** ** The data model (App.tsx, lines 5-19) *)

Inductive MemoryType := photo | voice | text.

Definition MemoryType_eqb (a b : MemoryType) : bool :=
  match a, b with
  | photo, photo | voice, voice | text, text => true
  | _, _ => false
  end.

(** What the component sees of a selected file: the URL that
    [URL.createObjectURL] mints for it. *)
Record File := { createObjectURL : jsstring }.

(** The two clock readings a capture takes, [Date.now()] and [new Date()],
    in milliseconds since the epoch. *)
Record Clock := { Date_now : Z; new_Date : Z }.

(** One entry of [event.results]: its [isFinal] flag and the [transcript] of
    its first alternative. *)
Record SpeechRecognitionResult := { isFinal : bool; transcript0 : jsstring }.

Record SpeechRecognitionEvent := {
  resultIndex : nat;
  results : list SpeechRecognitionResult
}.

(** How a call ends: [generateStory] and the other handlers have no [throw],
    so every one of them completes normally. *)
Inductive Completion := Normal | Throw (error : jsstring).

Section Model.

(** A latitude or longitude is a JavaScript number.  The component never
    computes with one; the story only prints it, with the host's
    [Number.prototype.toString]. *)
Variable number : Type.
Variable Number_toString : number -> jsstring.

Record LocationData := { name : jsstring; lat : number; lng : number }.

Record MemoryItem := {
  id : jsstring;
  type : MemoryType;
  content : jsstring;
  timestamp : Z;
  location : LocationData
}.

(** The [useState] cells of lines 22-27. *)
Record AppState := {
  memories : list MemoryItem;
  isRecording : bool;
  transcript : jsstring;
  generatedStory : option jsstring;
  isGenerating : bool;
  currentLocation : LocationData
}.

(** The setters, each applied to an updater as in [setMemories(prev => ...)];
    a plain value [v] is the updater [fun _ => v]. *)
Definition setMemories (f : list MemoryItem -> list MemoryItem) (s : AppState) :=
  {| memories := f (memories s); isRecording := isRecording s;
     transcript := transcript s; generatedStory := generatedStory s;
     isGenerating := isGenerating s; currentLocation := currentLocation s |}.

Definition setIsRecording (f : bool -> bool) (s : AppState) :=
  {| memories := memories s; isRecording := f (isRecording s);
     transcript := transcript s; generatedStory := generatedStory s;
     isGenerating := isGenerating s; currentLocation := currentLocation s |}.

Definition setTranscript (f : jsstring -> jsstring) (s : AppState) :=
  {| memories := memories s; isRecording := isRecording s;
     transcript := f (transcript s); generatedStory := generatedStory s;
     isGenerating := isGenerating s; currentLocation := currentLocation s |}.

Definition setGeneratedStory (f : option jsstring -> option jsstring) (s : AppState) :=
  {| memories := memories s; isRecording := isRecording s;
     transcript := transcript s; generatedStory := f (generatedStory s);
     isGenerating := isGenerating s; currentLocation := currentLocation s |}.

Definition setIsGenerating (f : bool -> bool) (s : AppState) :=
  {| memories := memories s; isRecording := isRecording s;
     transcript := transcript s; generatedStory := generatedStory s;
     isGenerating := f (isGenerating s); currentLocation := currentLocation s |}.

Definition setCurrentLocation (f : LocationData -> LocationData) (s : AppState) :=
  {| memories := memories s; isRecording := isRecording s;
     transcript := transcript s; generatedStory := generatedStory s;
     isGenerating := isGenerating s; currentLocation := f (currentLocation s) |}.

(** *** Capture (lines 50-63 and 109-118) *)

(** [file] is [event.target.files?.[0]]: [None] when the change event
    carries no file. *)
Definition handlePhotoUpload (clock : Clock) (file : option File) (s : AppState)
  : AppState :=
  match file with
  | Some f =>
    let imageUrl := createObjectURL f in
    let newMemory :=
      {| id := digits (Date_now clock); type := photo; content := imageUrl;
         timestamp := new_Date clock; location := currentLocation s |} in
    setMemories (fun prev => newMemory :: prev) s
  | None => s
  end.

Definition addTextMemory (clock : Clock) (text : jsstring) (s : AppState)
  : AppState :=
  let newMemory :=
    {| id := digits (Date_now clock); type := voice; content := text;
       timestamp := new_Date clock; location := currentLocation s |} in
  setMemories (fun prev => newMemory :: prev) s.

(** *** The voice session (lines 76-107) *)

(** The loop of [onresult] over [event.results] from [event.resultIndex]:
    a final result is appended to [transcript], the others go to the local
    [interimTranscript], which the handler drops when it returns. *)
Definition onresult_step (acc : AppState * jsstring) (r : SpeechRecognitionResult)
  : AppState * jsstring :=
  let (s, interimTranscript) := acc in
  if isFinal r
  then (setTranscript (fun prev => prev ++ transcript0 r) s, interimTranscript)
  else (s, interimTranscript ++ transcript0 r).

Definition onresult (event : SpeechRecognitionEvent) (s : AppState) : AppState :=
  fst (fold_left onresult_step (skipn (resultIndex event) (results event)) (s, [])).

Definition onerror (s : AppState) : AppState := setIsRecording (fun _ => false) s.

(** [recognitionRef.current?.stop()] and [.start()] drive the host's
    recognizer and touch no state of the component. *)
Definition toggleRecording (clock : Clock) (s : AppState) : AppState :=
  if isRecording s then
    let s1 := setIsRecording (fun _ => false) s in
    if truthy (trim (transcript s))
    then setTranscript (fun _ => []) (addTextMemory clock (transcript s) s1)
    else s1
  else
    setIsRecording (fun _ => true) (setTranscript (fun _ => []) s).

(** *** Deletion (lines 170-172) *)

Definition deleteMemory (id0 : jsstring) (s : AppState) : AppState :=
  setMemories (filter (fun m => negb (JS.eqb (id m) id0))) s.

(** *** The story (lines 121-168) *)

(** [memories.map(m => m.location.name)] *)
Definition locationNames (ms : list MemoryItem) : list jsstring :=
  map (fun m => name (location m)) ms.

(** Line 126. *)
Definition uniqueLocations (ms : list MemoryItem) : list jsstring :=
  Array_from (Set_new (locationNames ms)).

(** Line 130, the heading of the story. *)
Definition storyTitle (uniqueLocations : list jsstring) : jsstring :=
  lit "# 🗺️ 旅程回憶錄：" ++ interpolate (nth_error uniqueLocations 0)
  ++ lit " 之旅".

Definition mapLink (m : MemoryItem) : jsstring :=
  lit "https://www.google.com/maps/search/?api=1&query="
  ++ Number_toString (lat (location m)) ++ lit ","
  ++ Number_toString (lng (location m)).

Definition voiceSection (m : MemoryItem) : jsstring :=
  LF ++ lit "**📍 " ++ name (location m) ++ lit "**"
  ++ LF ++ lit "> 💭 語音筆記：「" ++ content m ++ lit "」"
  ++ LF ++ lit "> [🗺️ 查看地圖座標](" ++ mapLink m ++ lit ")"
  ++ LF.

Definition photoSection (m : MemoryItem) : jsstring :=
  LF ++ lit "**📍 " ++ name (location m) ++ lit "**"
  ++ LF ++ lit "(📸 這裡拍下的照片捕捉了當下的氛圍)"
  ++ LF ++ lit "> [🗺️ 查看地圖座標](" ++ mapLink m ++ lit ")"
  ++ LF.

(** The callback of [memories.map] at lines 146-160. *)
Definition storySection (m : MemoryItem) : jsstring :=
  if MemoryType_eqb (type m) voice then voiceSection m
  else if MemoryType_eqb (type m) photo then photoSection m
  else [].

Definition storySections (ms : list MemoryItem) : list jsstring :=
  map storySection ms.

(** What the callback of [setTimeout] closes over: the [memories] of the
    render that called [generateStory], and its [uniqueLocations]. *)
Record StoryJob := {
  job_memories : list MemoryItem;
  job_uniqueLocations : list jsstring
}.

(** The template of lines 129-164; [today] is
    [new Date().toLocaleDateString()], read when the timer fires. *)
Definition story (today : jsstring) (job : StoryJob) : jsstring :=
  LF ++ storyTitle (job_uniqueLocations job)
  ++ LF
  ++ LF ++ lit "**📅 日期**：" ++ today
  ++ LF ++ lit "**📍 足跡**：" ++ join (lit " ➝ ") (job_uniqueLocations job)
  ++ LF
  ++ LF ++ lit "---"
  ++ LF
  ++ LF ++ lit "### 🚶‍♂️ 旅遊路線圖 (Google Maps Timeline)"
  ++ LF ++ lit "*(此處模擬 Google Maps 路徑預覽)*"
  ++ LF ++ lit "> 系統已自動將您的 "
        ++ digits (Z.of_nat (length (job_memories job)))
        ++ lit " 個打卡點連成一條路徑。"
  ++ LF ++ lit "> [🔗 點擊查看 Google Maps 完整路線](https://www.google.com/maps/dir/"
        ++ join (lit "/") (locationNames (job_memories job)) ++ lit ")"
  ++ LF
  ++ LF ++ lit "---"
  ++ LF
  ++ LF ++ lit "### 📸 旅途高光時刻"
  ++ LF
  ++ LF ++ join LF (storySections (job_memories job))
  ++ LF
  ++ LF ++ lit "---"
  ++ LF ++ lit "*這篇遊記由 TravelMemory AI 自動彙整，結合了您的照片、語音口述與 Google Maps 足跡。*"
  ++ LF ++ lit "      ".

(** What a call of [generateStory] leaves behind: how it completed, the
    state after its setters, and the timer it armed, if any. *)
Record Outcome := {
  completion : Completion;
  after : AppState;
  timer : option StoryJob
}.

Definition generateStory (s : AppState) : Outcome :=
  if Nat.eqb (length (memories s)) 0
  then {| completion := Normal; after := s; timer := None |}
  else
    {| completion := Normal;
       after := setIsGenerating (fun _ => true) s;
       timer := Some {| job_memories := memories s;
                        job_uniqueLocations := uniqueLocations (memories s) |} |}.

(** The timer's callback, 2.5 s later (lines 128-167). *)
Definition storyTimeout (job : StoryJob) (today : jsstring) (s : AppState)
  : AppState :=
  setIsGenerating (fun _ => false)
    (setGeneratedStory (fun _ => Some (story today job)) s).

(** *** Captures in a row

    One capture: the location provider has set [currentLocation] to
    [place], and the user then takes a photo or stops a voice note whose
    text is not blank. *)
Inductive Capture := PhotoCapture (file : File) | VoiceCapture (text : jsstring).

Record Insertion := { place : LocationData; clock : Clock; capture : Capture }.

Definition insert (i : Insertion) (s : AppState) : AppState :=
  let s' := setCurrentLocation (fun _ => place i) s in
  match capture i with
  | PhotoCapture f => handlePhotoUpload (clock i) (Some f) s'
  | VoiceCapture t => addTextMemory (clock i) t s'
  end.

(** The entry that a capture puts on the timeline. *)
Definition entryOf (i : Insertion) : MemoryItem :=
  {| id := digits (Date_now (clock i));
     type := match capture i with PhotoCapture _ => photo | VoiceCapture _ => voice end;
     content := match capture i with
                | PhotoCapture f => createObjectURL f
                | VoiceCapture t => t
                end;
     timestamp := new_Date (clock i);
     location := place i |}.

Definition insertAll (ins : list Insertion) (s : AppState) : AppState :=
  fold_left (fun st i => insert i st) ins s.

(** *** A voice session: start, the recognizer's events, stop *)

Definition session (evs : list SpeechRecognitionEvent) (stopClock : Clock)
  (s : AppState) : AppState :=
  toggleRecording stopClock
    (fold_left (fun st ev => onresult ev st) evs (toggleRecording stopClock s)).

End Model.

(** ** The vocabulary of the properties *)

(** Keeping the first occurrence of each string, in the order of those first
    occurrences. *)
Fixpoint firstOccurrences (xs : list jsstring) : list jsstring :=
  match xs with
  | [] => []
  | x :: r => x :: filter (fun y => negb (JS.eqb y x)) (firstOccurrences r)
  end.

(** The waypoint sequence in the specification's words: the entries are read
    oldest first, which is [memories] backwards, and the first occurrence of
    each waypoint name is kept.  It is compared below with [uniqueLocations],
    which is what line 126 computes. *)
Definition waypointSequence_spec (number : Type) (ms : list (MemoryItem number))
  : list jsstring :=
  firstOccurrences (rev (locationNames ms)).

(** The results an [onresult] event delivers, and the text of the final ones
    across the events of a session, in order of receipt. *)
Definition segments (ev : SpeechRecognitionEvent) : list SpeechRecognitionResult :=
  skipn (resultIndex ev) (results ev).

Definition finalText (evs : list SpeechRecognitionEvent) : jsstring :=
  concat (map transcript0 (filter isFinal (flat_map segments evs))).

(** ** A concrete host

    Coordinates that are whole numbers, which [Number.prototype.toString]
    prints as [digits] does. *)

(** The initial values of the [useState] cells (lines 22-27). *)
Definition initialState : AppState Z :=
  {| memories := []; isRecording := false; transcript := [];
     generatedStory := None; isGenerating := false;
     currentLocation := {| name := lit "定位中..."; lat := 0%Z; lng := 0%Z |} |}.

Definition Tokyo : LocationData Z := {| name := lit "Tokyo"; lat := 36%Z; lng := 140%Z |}.
Definition Paris : LocationData Z := {| name := lit "Paris"; lat := 49%Z; lng := 2%Z |}.
Definition Kyoto : LocationData Z := {| name := lit "Kyoto"; lat := 35%Z; lng := 136%Z |}.

Definition noteAt (p : LocationData Z) (ms : Z) (t : jsstring) : Insertion Z :=
  {| place := p; clock := {| Date_now := ms; new_Date := ms |};
     capture := VoiceCapture t |}.

Definition photoAt (p : LocationData Z) (ms : Z) (url : jsstring) : Insertion Z :=
  {| place := p; clock := {| Date_now := ms; new_Date := ms |};
     capture := PhotoCapture {| createObjectURL := url |} |}.

(** Four captures, at Tokyo, Paris, Tokyo again and Kyoto, in that order. *)
Definition tokyoTrip : list (Insertion Z) :=
  [ noteAt Tokyo 1730548800000 (lit "Asakusa at dawn");
    photoAt Paris 1730548860000 (lit "blob:1");
    noteAt Tokyo 1730548920000 (lit "back again");
    photoAt Kyoto 1730548980000 (lit "blob:2") ].

Definition tokyoState : AppState Z := insertAll tokyoTrip initialState.

(** Two captures whose [Date.now()] is the same millisecond. *)
Definition sameMillisecond : list (Insertion Z) :=
  [ photoAt Tokyo 1730548800000 (lit "blob:1");
    photoAt Tokyo 1730548800000 (lit "blob:2") ].

Definition finalSegment (t : jsstring) : SpeechRecognitionEvent :=
  {| resultIndex := 0; results := [ {| isFinal := true; transcript0 := t |} ] |}.

Definition interimSegment (t : jsstring) : SpeechRecognitionEvent :=
  {| resultIndex := 0; results := [ {| isFinal := false; transcript0 := t |} ] |}.

Definition helloWorld : list SpeechRecognitionEvent :=
  [ interimSegment (lit "Hel"); finalSegment (lit "Hello ");
    interimSegment (lit "wor"); finalSegment (lit "world") ].

Definition paddedNote : list SpeechRecognitionEvent := [ finalSegment (lit " hi") ].

Definition stopClock : Clock := {| Date_now := 1730549000000; new_Date := 1730549000001 |}.

(** An entry of type ['text'], which the type [MemoryType] admits. *)
Definition typedNote : MemoryItem Z :=
  {| id := lit "1730549000000"; type := text; content := lit "typed";
     timestamp := 1730549000000; location := Tokyo |}.

(** ** The component as a whole

    What the rendered component offers besides the handlers above: the map
    link of a card (lines 174-176), the conditions of lines 200 and 327-333,
    and the wiring of the handlers to the events of the page. *)

Section EventLoop.

Variable number : Type.
Variable Number_toString : number -> jsstring.

(** [openMap] hands this URL to [window.open] (line 175). *)
Definition openMap (loc : LocationData number) : jsstring :=
  lit "https://www.google.com/maps/search/?api=1&query="
  ++ Number_toString (lat loc) ++ lit "," ++ Number_toString (lng loc).

(** [disabled={memories.length === 0}] on the button that calls
    [generateStory] (line 200). *)
Definition generateDisabled (s : AppState number) : bool :=
  Nat.eqb (length (memories s)) 0.

(** The live caption of lines 327-333: shown while recording, it reads
    [transcript || "正在聆聽..."]. *)
Definition caption (s : AppState number) : option jsstring :=
  if isRecording s
  then Some (if truthy (transcript s) then transcript s else lit "正在聆聽...")
  else None.

(** The events the component reacts to, each with what its handler reads
    from the host: the location provider's [setCurrentLocation] (lines 41 and
    44), [onChange] of the file input (341), [onresult] and [onerror] of the
    recognizer (76, 87), the microphone button (350), the story button (199),
    the timer armed by [generateStory] (128), the bin of a card (285) and the
    cross of the story (236). *)
Inductive Event :=
| LocationChanged (loc : LocationData number)
| PhotoChosen (c : Clock) (file : option File)
| SpeechResult (ev : SpeechRecognitionEvent)
| SpeechError
| MicClicked (c : Clock)
| GenerateClicked
| TimerFired (today : jsstring)
| DeleteClicked (id0 : jsstring)
| StoryDismissed.

(** The state of the component and the story timers that are armed and have
    not fired yet, oldest first: all have the same delay, so they fire in the
    order they were armed. *)
Record World := { component : AppState number; pending : list (StoryJob number) }.

Definition step (e : Event) (w : World) : World :=
  match e with
  | LocationChanged loc =>
    {| component := setCurrentLocation (fun _ => loc) (component w); pending := pending w |}
  | PhotoChosen c file =>
    {| component := handlePhotoUpload c file (component w); pending := pending w |}
  | SpeechResult ev => {| component := onresult ev (component w); pending := pending w |}
  | SpeechError => {| component := onerror (component w); pending := pending w |}
  | MicClicked c => {| component := toggleRecording c (component w); pending := pending w |}
  | GenerateClicked =>
    let o := generateStory (component w) in
    {| component := after o;
       pending := pending w ++ match timer o with Some job => [job] | None => [] end |}
  | TimerFired today =>
    match pending w with
    | job :: rest =>
      {| component := storyTimeout Number_toString job today (component w); pending := rest |}
    | [] => w
    end
  | DeleteClicked id0 => {| component := deleteMemory id0 (component w); pending := pending w |}
  | StoryDismissed =>
    {| component := setGeneratedStory (fun _ => None) (component w); pending := pending w |}
  end.

Definition run (evs : list Event) (w : World) : World :=
  fold_left (fun w' e => step e w') evs w.

(** Events that neither arm nor fire a story timer. *)
Definition quiet (e : Event) : bool :=
  match e with
  | GenerateClicked | TimerFired _ => false
  | _ => true
  end.

(** The [Date.now()] readings that the events of a run hand to the capture
    handlers, in order. *)
Definition clockReadings (evs : list Event) : list Z :=
  flat_map (fun e => match e with
                     | PhotoChosen c _ | MicClicked c => [Date_now c]
                     | _ => []
                     end) evs.

(** The snapshot that [generateStory] hands to its timer. *)
Definition snapshot (s : AppState number) : StoryJob number :=
  {| job_memories := memories s;
     job_uniqueLocations := uniqueLocations (memories s) |}.

End EventLoop.

Arguments LocationChanged {number} loc.
Arguments PhotoChosen {number} c file.
Arguments SpeechResult {number} ev.
Arguments SpeechError {number}.
Arguments MicClicked {number} c.
Arguments GenerateClicked {number}.
Arguments TimerFired {number} today.
Arguments DeleteClicked {number} id0.
Arguments StoryDismissed {number}.

(** An entry as the two capture paths make them: a photo, or a voice note
    whose text is not blank. *)
Definition captured (number : Type) (m : MemoryItem number) : Prop :=
  match type m with
  | photo => True
  | voice => trim (content m) <> []
  | text => False
  end.

Fixpoint increasing (zs : list Z) : bool :=
  match zs with
  | a :: (b :: _) as r => (a <? b)%Z && increasing r
  | _ => true
  end.

(** A string with a code unit that is not white space. *)
Definition hasText (t : jsstring) : bool :=
  existsb (fun c => negb (isWhiteSpace c)) t.

Definition startWorld : World Z := {| component := initialState; pending := [] |}.

Definition tokyoWorld : World Z := {| component := tokyoState; pending := [] |}.

(** A short walk: a photo in Tokyo, a voice note in Paris, a story asked
    for, the photo deleted while the story is being made, and the timer. *)
Definition walk : list (Event Z) :=
  [ LocationChanged Tokyo;
    PhotoChosen {| Date_now := 1730548800000; new_Date := 1730548800000 |}
      (Some {| createObjectURL := lit "blob:1" |});
    LocationChanged Paris;
    MicClicked {| Date_now := 1730548810000; new_Date := 1730548810000 |};
    SpeechResult (interimSegment (lit "bon"));
    SpeechResult (finalSegment (lit "bonjour "));
    MicClicked {| Date_now := 1730548820000; new_Date := 1730548820000 |};
    GenerateClicked;
    DeleteClicked (lit "1730548800000");
    TimerFired (lit "2026/11/2") ].

(** A computed equation between two different values is absurd. *)
Ltac refute_by_evaluation H := vm_compute in H; discriminate H.

(** ** Facts about the built-ins *)

Example lit_ascii : lit "Hi" = [72; 105]%N.
Proof. reflexivity. Qed.

Example lit_cjk : lit "東京" = [26481; 20140]%N.
Proof. reflexivity. Qed.

Example lit_surrogates : lit "🗺️" = [55357; 56826; 65039]%N.
Proof. reflexivity. Qed.

Example digits_clock : digits 1730548800123 = lit "1730548800123".
Proof. reflexivity. Qed.

Example digits_zero_and_negative : digits 0 = lit "0" /\ digits (-73) = lit "-73".
Proof. split; reflexivity. Qed.

Example trim_both_ends :
  trim ([12288; 9]%N ++ lit "Hello  world" ++ [10; 160]%N) = lit "Hello  world".
Proof. reflexivity. Qed.

Example join_arrow :
  join (lit " ➝ ") [lit "Kyoto"; lit "Tokyo"] = lit "Kyoto ➝ Tokyo".
Proof. reflexivity. Qed.

Example Set_new_keeps_first :
  Array_from (Set_new [lit "a"; lit "b"; lit "a"; lit "c"; lit "b"])
  = [lit "a"; lit "b"; lit "c"].
Proof. reflexivity. Qed.

Lemma eqb_eq (a b : jsstring) : JS.eqb a b = true <-> a = b.
Proof.
  revert b; induction a as [|x a IH]; intros [|y b]; simpl; split;
    try congruence; try reflexivity.
  - intros H. apply andb_true_iff in H as [Hx Hr].
    apply N.eqb_eq in Hx. apply IH in Hr. congruence.
  - intros H. injection H as -> ->.
    rewrite N.eqb_refl. simpl. now apply IH.
Qed.

Lemma eqb_refl (a : jsstring) : JS.eqb a a = true.
Proof. now apply eqb_eq. Qed.

Lemma eqb_neq (a b : jsstring) : JS.eqb a b = false <-> a <> b.
Proof.
  split.
  - intros H E. apply eqb_eq in E. congruence.
  - intros H. destruct (JS.eqb a b) eqn:E; [|reflexivity].
    apply eqb_eq in E. contradiction.
Qed.

Lemma uint_digits_inj (a b : Decimal.uint) : uint_digits a = uint_digits b -> a = b.
Proof.
  revert b; induction a; intros b H; destruct b; simpl in H;
    try discriminate; try reflexivity;
    injection H as H; f_equal; auto.
Qed.

Lemma uint_digits_no_sign (d : Decimal.uint) (r : jsstring) :
  uint_digits d <> 45%N :: r.
Proof. destruct d; simpl; congruence. Qed.

Lemma digits_inj (a b : Z) : digits a = digits b -> a = b.
Proof.
  unfold digits, int_digits. intros H.
  apply DecimalZ.to_int_inj.
  destruct (Z.to_int a) as [da|da], (Z.to_int b) as [db|db].
  - f_equal. now apply uint_digits_inj.
  - exfalso. eapply uint_digits_no_sign. exact H.
  - exfalso. eapply uint_digits_no_sign. symmetry. exact H.
  - injection H as H. f_equal. now apply uint_digits_inj.
Qed.

Lemma trimStart_nil_of_all_ws (s : jsstring) :
  forallb isWhiteSpace s = true -> trimStart s = [].
Proof.
  induction s as [|c s IH]; simpl; [reflexivity|].
  intros H. apply andb_true_iff in H as [Hc Hs]. rewrite Hc. now apply IH.
Qed.

(** *** [new Set(xs)] keeps first occurrences *)

Lemma Set_has_In (s : list jsstring) (x : jsstring) :
  Set_has s x = true <-> In x s.
Proof.
  unfold Set_has. rewrite existsb_exists. split.
  - intros (y & Hy & E). apply eqb_eq in E. now subst.
  - intros H. exists x. split; [assumption | apply eqb_refl].
Qed.

Lemma Set_has_app (s t : list jsstring) (x : jsstring) :
  Set_has (s ++ t) x = Set_has s x || Set_has t x.
Proof. unfold Set_has. apply existsb_app. Qed.

Lemma filter_comm (A : Type) (p q : A -> bool) (l : list A) :
  filter p (filter q l) = filter q (filter p l).
Proof.
  induction l as [|a l IH]; simpl; [reflexivity|].
  destruct (q a) eqn:Q, (p a) eqn:P; simpl; rewrite ?Q, ?P, IH; reflexivity.
Qed.

Lemma filter_both (A : Type) (p q : A -> bool) (l : list A) :
  filter p (filter q l) = filter (fun a => q a && p a) l.
Proof.
  induction l as [|a l IH]; simpl; [reflexivity|].
  destruct (q a) eqn:Q; simpl; [destruct (p a)|]; now rewrite IH.
Qed.

Lemma firstOccurrences_In (xs : list jsstring) (x : jsstring) :
  In x (firstOccurrences xs) <-> In x xs.
Proof.
  induction xs as [|y r IH]; simpl; [tauto|].
  rewrite filter_In, IH. split.
  - intros [E | [H _]]; auto.
  - intros [E | H]; [now left|].
    destruct (JS.eqb x y) eqn:E.
    + left. apply eqb_eq in E. congruence.
    + right. now split.
Qed.

Lemma firstOccurrences_NoDup (xs : list jsstring) : NoDup (firstOccurrences xs).
Proof.
  induction xs as [|y r IH]; simpl; constructor.
  - rewrite filter_In. intros [_ H]. now rewrite eqb_refl in H.
  - now apply NoDup_filter.
Qed.

(** Dropping the strings that fail a test commutes with keeping first
    occurrences. *)
Lemma firstOccurrences_filter (p : jsstring -> bool) (xs : list jsstring) :
  firstOccurrences (filter p xs) = filter p (firstOccurrences xs).
Proof.
  induction xs as [|y r IH]; simpl; [reflexivity|].
  destruct (p y) eqn:P; simpl.
  - rewrite IH. f_equal. apply filter_comm.
  - rewrite IH, (filter_comm p). symmetry.
    apply forallb_filter_id, forallb_forall.
    intros a Ha. apply filter_In in Ha as [_ Pa].
    destruct (JS.eqb a y) eqn:E; [|reflexivity].
    apply eqb_eq in E. congruence.
Qed.

Lemma fold_Set_add (xs acc : list jsstring) :
  fold_left Set_add xs acc
  = acc ++ firstOccurrences (filter (fun y => negb (Set_has acc y)) xs).
Proof.
  revert acc; induction xs as [|x r IH]; intros acc; simpl.
  - now rewrite app_nil_r.
  - unfold Set_add at 2. destruct (Set_has acc x) eqn:H; simpl.
    + apply IH.
    + rewrite IH, <- app_assoc. simpl. do 2 f_equal.
      rewrite <- firstOccurrences_filter. f_equal.
      rewrite filter_both. apply filter_ext. intros a.
      rewrite Set_has_app. unfold Set_has at 2. simpl.
      rewrite orb_false_r, negb_orb. reflexivity.
Qed.

Lemma Set_new_firstOccurrences (xs : list jsstring) :
  Array_from (Set_new xs) = firstOccurrences xs.
Proof.
  unfold Array_from, Set_new. rewrite fold_Set_add. simpl.
  now rewrite filter_true.
Qed.

(** ** Facts about the handlers *)

Section HandlerFacts.

Variable number : Type.
Implicit Types (s : AppState number) (m : MemoryItem number).

Lemma uniqueLocations_eq (ms : list (MemoryItem number)) :
  uniqueLocations ms = firstOccurrences (locationNames ms).
Proof. apply Set_new_firstOccurrences. Qed.

Lemma generateStory_nonempty s m rest :
  memories s = m :: rest ->
  generateStory s
  = {| completion := Normal;
       after := setIsGenerating (fun _ => true) s;
       timer := Some {| job_memories := memories s;
                        job_uniqueLocations := uniqueLocations (memories s) |} |}.
Proof. intros H. unfold generateStory. now rewrite H. Qed.

(** The loop of [onresult]: the finals reach [transcript] in order, the
    interims only the local variable. *)
Lemma onresult_loop (rs : list SpeechRecognitionResult) s (interim : jsstring) :
  fold_left (@onresult_step number) rs (s, interim)
  = (setTranscript
       (fun prev => prev ++ concat (map transcript0 (filter isFinal rs))) s,
     interim
     ++ concat (map transcript0 (filter (fun r => negb (isFinal r)) rs))).
Proof.
  revert s interim; induction rs as [|r rs IH]; intros s interim; simpl.
  - destruct s; unfold setTranscript; simpl. now rewrite !app_nil_r.
  - destruct (isFinal r) eqn:F; simpl; rewrite IH.
    + destruct s; unfold setTranscript; simpl. now rewrite <- app_assoc.
    + now rewrite <- app_assoc.
Qed.

Lemma onresult_eq (ev : SpeechRecognitionEvent) s :
  onresult ev s
  = setTranscript
      (fun prev => prev ++ concat (map transcript0 (filter isFinal (segments ev)))) s.
Proof. unfold onresult. now rewrite onresult_loop. Qed.

Lemma finalText_cons (ev : SpeechRecognitionEvent) (evs : list SpeechRecognitionEvent) :
  finalText (ev :: evs)
  = concat (map transcript0 (filter isFinal (segments ev))) ++ finalText evs.
Proof.
  unfold finalText. simpl. now rewrite filter_app, map_app, concat_app.
Qed.

Lemma onresult_all (evs : list SpeechRecognitionEvent) s :
  fold_left (fun st ev => onresult ev st) evs s
  = setTranscript (fun prev => prev ++ finalText evs) s.
Proof.
  revert s; induction evs as [|ev evs IH]; intros s; simpl.
  - destruct s; unfold setTranscript, finalText; simpl. now rewrite app_nil_r.
  - rewrite IH, onresult_eq, finalText_cons.
    destruct s; unfold setTranscript; simpl. now rewrite <- app_assoc.
Qed.

Lemma finalText_interim_only (evs : list SpeechRecognitionEvent) :
  (forall r, In r (flat_map segments evs) -> isFinal r = false) ->
  finalText evs = [].
Proof.
  intros H. unfold finalText.
  rewrite (filter_ext_in isFinal (fun _ => false)), filter_false by exact H.
  reflexivity.
Qed.

(** What a whole session leaves, field by field. *)
Lemma session_eq (evs : list SpeechRecognitionEvent) (c : Clock) s :
  isRecording s = false ->
  session evs c s
  = if truthy (trim (finalText evs))
    then
      {| memories :=
           {| id := digits (Date_now c); type := voice;
              content := finalText evs; timestamp := new_Date c;
              location := currentLocation s |} :: memories s;
         isRecording := false; transcript := [];
         generatedStory := generatedStory s; isGenerating := isGenerating s;
         currentLocation := currentLocation s |}
    else
      {| memories := memories s; isRecording := false;
         transcript := finalText evs;
         generatedStory := generatedStory s; isGenerating := isGenerating s;
         currentLocation := currentLocation s |}.
Proof.
  intros R. unfold session. rewrite onresult_all.
  unfold toggleRecording at 2. rewrite R.
  unfold toggleRecording. simpl.
  destruct (truthy (trim (finalText evs))); reflexivity.
Qed.

Lemma insert_memories (i : Insertion number) s :
  memories (insert i s) = entryOf i :: memories s.
Proof. unfold insert, entryOf. destruct (capture i); reflexivity. Qed.

Lemma insertAll_memories (ins : list (Insertion number)) s :
  memories (insertAll ins s) = rev (map (@entryOf number) ins) ++ memories s.
Proof.
  unfold insertAll. revert s; induction ins as [|i ins IH]; intros s; simpl.
  - reflexivity.
  - rewrite IH, insert_memories, <- app_assoc. reflexivity.
Qed.

(** The two capture paths make photo and voice entries; nothing in the
    component makes an entry of type ['text']. *)
Lemma capture_type (i : Insertion number) :
  type (entryOf i) = photo \/ type (entryOf i) = voice.
Proof. unfold entryOf. destruct (capture i); simpl; auto. Qed.

Lemma deleteMemory_memories (id0 : jsstring) s :
  memories (deleteMemory id0 s)
  = filter (fun m => negb (JS.eqb (id m) id0)) (memories s).
Proof. reflexivity. Qed.

End HandlerFacts.

(** ** The route and the title of the story *)

(** C1, as the code has it: [uniqueLocations], the waypoint sequence of the
    story, lists the waypoint names of the entries in storage order (newest
    entry first), keeping the first occurrence of each name in that order; it
    has no duplicate and holds exactly the names of the entries.  For entries
    captured at Tokyo, Paris, Tokyo, Kyoto (oldest to newest) it is
    Kyoto, Tokyo, Paris. *)
Theorem uniqueLocations_newest_first :
  (forall (number : Type) (ms : list (MemoryItem number)),
      uniqueLocations ms = firstOccurrences (locationNames ms)
      /\ NoDup (uniqueLocations ms)
      /\ (forall n, In n (uniqueLocations ms) <-> In n (locationNames ms)))
  /\ locationNames (rev (memories tokyoState))
     = [lit "Tokyo"; lit "Paris"; lit "Tokyo"; lit "Kyoto"]
  /\ uniqueLocations (memories tokyoState)
     = [lit "Kyoto"; lit "Tokyo"; lit "Paris"].
Proof.
  split; [|split; reflexivity].
  intros number ms. rewrite uniqueLocations_eq. repeat split.
  - apply firstOccurrences_NoDup.
  - apply firstOccurrences_In.
  - apply firstOccurrences_In.
Qed.

(** C1 as stated fails: read oldest entry first, the route of the Tokyo trip
    is Tokyo, Paris, Kyoto, and [uniqueLocations] is not that list. *)
Lemma uniqueLocations_not_oldest_first :
  waypointSequence_spec (memories tokyoState) = [lit "Tokyo"; lit "Paris"; lit "Kyoto"]
  /\ uniqueLocations (memories tokyoState) <> waypointSequence_spec (memories tokyoState).
Proof.
  split; [reflexivity|].
  intros H. refute_by_evaluation H.
Qed.

(** C2, as the code has it: when the timeline is not empty, [generateStory]
    arms a timer whose story is headed by a title, and the name in that title
    is the first element of [uniqueLocations], which is the waypoint name of
    the entry at the head of the timeline: the newest one. *)
Theorem storyTitle_names_newest_entry :
  forall (number : Type) (s : AppState number) (m : MemoryItem number)
         (rest : list (MemoryItem number)),
    memories s = m :: rest ->
    exists job,
      timer (generateStory s) = Some job
      /\ nth_error (job_uniqueLocations job) 0 = Some (name (location m))
      /\ storyTitle (job_uniqueLocations job)
         = lit "# 🗺️ 旅程回憶錄：" ++ name (location m) ++ lit " 之旅"
      /\ forall (Number_toString : number -> jsstring) (today : jsstring),
           exists body,
             story Number_toString today job
             = LF ++ storyTitle (job_uniqueLocations job) ++ LF ++ body.
Proof.
  intros number s m rest H.
  rewrite (generateStory_nonempty s H). eexists. split; [reflexivity|].
  simpl. rewrite H, uniqueLocations_eq. simpl. repeat split.
  intros toStr today. unfold story. simpl job_uniqueLocations.
  eexists. reflexivity.
Qed.

Lemma storyTitle_names_newest_entry_witness :
  memories tokyoState
  = entryOf (photoAt Kyoto 1730548980000 (lit "blob:2"))
    :: rev (map (@entryOf Z) (firstn 3 tokyoTrip))
  /\ exists job,
      timer (generateStory tokyoState) = Some job
      /\ nth_error (job_uniqueLocations job) 0 = Some (lit "Kyoto")
      /\ storyTitle (job_uniqueLocations job)
         = lit "# 🗺️ 旅程回憶錄：" ++ lit "Kyoto" ++ lit " 之旅"
      /\ forall (Number_toString : Z -> jsstring) (today : jsstring),
           exists body,
             story Number_toString today job
             = LF ++ storyTitle (job_uniqueLocations job) ++ LF ++ body.
Proof.
  split; [reflexivity|].
  apply (@storyTitle_names_newest_entry Z tokyoState
           (entryOf (photoAt Kyoto 1730548980000 (lit "blob:2")))
           (rev (map (@entryOf Z) (firstn 3 tokyoTrip)))).
  reflexivity.
Defined.

(** C2 as stated fails: the earliest waypoint of the Tokyo trip is Tokyo, yet
    the title names Kyoto, the waypoint of the newest entry. *)
Lemma storyTitle_not_earliest_waypoint :
  nth_error (waypointSequence_spec (memories tokyoState)) 0 = Some (lit "Tokyo")
  /\ storyTitle (uniqueLocations (memories tokyoState))
     = lit "# 🗺️ 旅程回憶錄：Kyoto 之旅"
  /\ storyTitle (uniqueLocations (memories tokyoState))
     <> storyTitle (waypointSequence_spec (memories tokyoState)).
Proof.
  split; [reflexivity|]. split; [reflexivity|].
  intros H. refute_by_evaluation H.
Qed.

(** ** The voice session *)

Lemma truthy_true (x : jsstring) : truthy x = true <-> x <> [].
Proof. destruct x; simpl; split; congruence. Qed.

(** C3, as the code has it: a session started from rest collects in
    [transcript] the texts of the final results, concatenated in order of
    receipt with nothing in between.  Stopping trims that text only to test
    it: when the trimmed text is not empty, one voice entry is put at the head
    of the timeline and its content is the collected text as it is, not
    trimmed; when it is empty, no entry is made.  After the finals "Hello "
    and "world" the entry holds "Hello world", which is also its trimmed
    form. *)
Theorem session_keeps_final_text :
  (forall (number : Type) (s : AppState number)
          (evs : list SpeechRecognitionEvent) (c : Clock),
      isRecording s = false ->
      transcript
        (fold_left (fun st ev => onresult ev st) evs (toggleRecording c s))
      = finalText evs
      /\ (trim (finalText evs) <> [] ->
          memories (session evs c s)
          = {| id := digits (Date_now c); type := voice;
               content := finalText evs; timestamp := new_Date c;
               location := currentLocation s |} :: memories s)
      /\ (trim (finalText evs) = [] ->
          memories (session evs c s) = memories s))
  /\ finalText helloWorld = lit "Hello world"
  /\ trim (finalText helloWorld) = lit "Hello world"
  /\ map (@content Z) (memories (session helloWorld stopClock initialState))
     = [lit "Hello world"].
Proof.
  split; [|repeat split; reflexivity].
  intros number s evs c R. split; [|split].
  - rewrite onresult_all. unfold toggleRecording. rewrite R. reflexivity.
  - intros T. rewrite (session_eq evs c s R).
    apply truthy_true in T. now rewrite T.
  - intros T. rewrite (session_eq evs c s R). now rewrite T.
Qed.

Lemma session_keeps_final_text_witness :
  isRecording initialState = false
  /\ trim (finalText helloWorld) <> []
  /\ memories (session helloWorld stopClock initialState)
     = [ {| id := digits (Date_now stopClock); type := voice;
            content := finalText helloWorld; timestamp := new_Date stopClock;
            location := currentLocation initialState |} ].
Proof.
  split; [reflexivity|].
  assert (T : trim (finalText helloWorld) <> []) by (vm_compute; discriminate).
  split; [exact T|].
  exact (proj1 (proj2
           (proj1 session_keeps_final_text Z initialState helloWorld stopClock
              eq_refl)) T).
Defined.

(** C3 as stated fails: after the single final result " hi" the entry holds
    " hi", with its leading blank, and not the trimmed "hi". *)
Lemma session_entry_not_trimmed :
  trim (finalText paddedNote) = lit "hi"
  /\ map (@content Z) (memories (session paddedNote stopClock initialState))
     = [lit " hi"]
  /\ map (@content Z) (memories (session paddedNote stopClock initialState))
     <> [trim (finalText paddedNote)].
Proof.
  split; [reflexivity|]. split; [reflexivity|].
  intros H. refute_by_evaluation H.
Qed.

(** C7: in a session started from rest in which every result received is
    interim, nothing reaches [transcript]: it is empty when the session is
    stopped, so is its trimmed form, and stopping adds no entry; the timeline
    is the one the session started with. *)
Theorem interim_only_session_adds_nothing :
  forall (number : Type) (s : AppState number)
         (evs : list SpeechRecognitionEvent) (c : Clock),
    isRecording s = false ->
    (forall r, In r (flat_map segments evs) -> isFinal r = false) ->
    transcript
      (fold_left (fun st ev => onresult ev st) evs (toggleRecording c s)) = []
    /\ trim (transcript
         (fold_left (fun st ev => onresult ev st) evs (toggleRecording c s))) = []
    /\ memories
         (fold_left (fun st ev => onresult ev st) evs (toggleRecording c s))
       = memories s
    /\ memories (session evs c s) = memories s
    /\ transcript (session evs c s) = []
    /\ isRecording (session evs c s) = false.
Proof.
  intros number s evs c R I.
  pose proof (finalText_interim_only evs I) as F.
  rewrite (session_eq evs c s R), onresult_all, F.
  unfold toggleRecording. rewrite R. simpl. repeat split.
Qed.

Lemma interim_only_session_adds_nothing_witness :
  isRecording tokyoState = false
  /\ transcript
       (fold_left (fun st ev => onresult ev st)
          [interimSegment (lit "Hel"); interimSegment (lit "Hello wor")]
          (toggleRecording stopClock tokyoState)) = []
  /\ memories
       (session [interimSegment (lit "Hel"); interimSegment (lit "Hello wor")]
          stopClock tokyoState)
     = memories tokyoState.
Proof.
  split; [reflexivity|].
  assert (I : forall r,
             In r (flat_map segments
                     [interimSegment (lit "Hel"); interimSegment (lit "Hello wor")]) ->
             isFinal r = false).
  { simpl. intros r [E | [E | []]]; subst r; reflexivity. }
  destruct (@interim_only_session_adds_nothing Z tokyoState
              [interimSegment (lit "Hel"); interimSegment (lit "Hello wor")]
              stopClock eq_refl I) as (T & _ & _ & M & _).
  split; [exact T | exact M].
Defined.

(** ** The timeline *)

Lemma NoDup_map_digits (zs : list Z) : NoDup zs -> NoDup (map digits zs).
Proof.
  induction 1 as [|z zs Hz _ IH]; simpl; constructor; [|exact IH].
  intros H. apply in_map_iff in H as (z' & E & Hin).
  apply digits_inj in E. now subst.
Qed.

(** C4, as the code has it: every capture puts its entry at position 0 and
    leaves the entries already there as they were, so after N captures on an
    empty timeline the timeline holds exactly those N entries, newest first.
    An id is the decimal text of [Date.now()] at the capture: the ids are
    pairwise distinct when the clock readings of the captures are. *)
Theorem insertAll_newest_first :
  forall (number : Type) (ins : list (Insertion number)) (s : AppState number),
    memories s = [] ->
    memories (insertAll ins s) = rev (map (@entryOf number) ins)
    /\ length (memories (insertAll ins s)) = length ins
    /\ (forall (i : Insertion number) (s' : AppState number),
           memories (insert i s') = entryOf i :: memories s')
    /\ (NoDup (map (fun i => Date_now (clock i)) ins) ->
        NoDup (map (@id number) (memories (insertAll ins s)))).
Proof.
  intros number ins s E.
  assert (M : memories (insertAll ins s) = rev (map (@entryOf number) ins)).
  { rewrite insertAll_memories, E. apply app_nil_r. }
  rewrite M. split; [reflexivity|]. split; [|split].
  - now rewrite length_rev, length_map.
  - intros i s'. apply insert_memories.
  - intros D. rewrite map_rev, map_map. apply NoDup_rev.
    change (fun x : Insertion number => id (entryOf x))
      with (fun x : Insertion number => digits (Date_now (clock x))).
    rewrite <- (map_map (fun i => Date_now (clock i)) digits).
    now apply NoDup_map_digits.
Qed.

Lemma insertAll_newest_first_witness :
  memories initialState = []
  /\ NoDup (map (fun i => Date_now (clock i)) tokyoTrip)
  /\ memories tokyoState = rev (map (@entryOf Z) tokyoTrip)
  /\ NoDup (map (@id Z) (memories tokyoState)).
Proof.
  split; [reflexivity|].
  assert (D : NoDup (map (fun i => Date_now (clock i)) tokyoTrip)).
  { simpl. repeat constructor; simpl; intuition discriminate. }
  split; [exact D|].
  destruct (@insertAll_newest_first Z tokyoTrip initialState eq_refl)
    as (M & _ & _ & U).
  split; [exact M | exact (U D)].
Defined.

(** C4 as stated fails: two captures in the same millisecond get the same
    id. *)
Lemma same_millisecond_same_id :
  length (memories (insertAll sameMillisecond initialState)) = 2
  /\ ~ NoDup (map (@id Z) (memories (insertAll sameMillisecond initialState))).
Proof.
  split; [reflexivity|].
  intros H. vm_compute in H.
  apply NoDup_cons_iff in H as [H _]. apply H. left. reflexivity.
Qed.

(** C8: after [deleteMemory id0] no entry of the timeline has the id [id0];
    when no entry had it, the whole state is unchanged; and deleting the same
    id again changes nothing more. *)
Theorem deleteMemory_removes_id :
  forall (number : Type) (id0 : jsstring) (s : AppState number),
    (forall m, In m (memories (deleteMemory id0 s)) -> id m <> id0)
    /\ ((forall m, In m (memories s) -> id m <> id0) -> deleteMemory id0 s = s)
    /\ deleteMemory id0 (deleteMemory id0 s) = deleteMemory id0 s.
Proof.
  intros number id0 s.
  assert (K : forall ms : list (MemoryItem number),
             (forall m, In m ms -> id m <> id0) ->
             filter (fun m => negb (JS.eqb (id m) id0)) ms = ms).
  { intros ms H. apply forallb_filter_id, forallb_forall.
    intros m Hm. apply negb_true_iff, eqb_neq. now apply H. }
  split; [|split].
  - intros m Hm. rewrite deleteMemory_memories in Hm.
    apply filter_In in Hm as [_ Hm].
    apply negb_true_iff, eqb_neq in Hm. exact Hm.
  - intros H. destruct s as [ms r t g ig l]. unfold deleteMemory, setMemories.
    simpl in *. now rewrite (K ms H).
  - destruct s as [ms r t g ig l]. unfold deleteMemory, setMemories. simpl.
    f_equal. apply K. intros m Hm. apply filter_In in Hm as [_ Hm].
    apply negb_true_iff, eqb_neq in Hm. exact Hm.
Qed.

Lemma deleteMemory_removes_id_witness :
  (forall m, In m (memories initialState) -> id m <> lit "1730548800000")
  /\ deleteMemory (lit "1730548800000") initialState = initialState
  /\ map (@id Z) (memories (deleteMemory (lit "1730548860000") tokyoState))
     = [lit "1730548980000"; lit "1730548920000"; lit "1730548800000"].
Proof.
  assert (A : forall m, In m (memories initialState) -> id m <> lit "1730548800000")
    by (intros m []).
  split; [exact A|]. split; [|reflexivity].
  exact (proj1 (proj2
           (@deleteMemory_removes_id Z (lit "1730548800000") initialState)) A).
Defined.

(** C10: a change event of the file input that carries no file leaves the
    whole state as it was; no entry is made. *)
Theorem handlePhotoUpload_without_file :
  forall (number : Type) (c : Clock) (s : AppState number),
    handlePhotoUpload c None s = s.
Proof. reflexivity. Qed.

(** ** Generating the story *)

(** C6, as the code has it: on an empty timeline [generateStory] returns at
    once and normally, with no error of any kind; it arms no timer, so no story
    is produced, and it leaves the whole state, the displayed story included,
    as it was. *)
Theorem generateStory_empty_returns :
  forall (number : Type) (s : AppState number),
    memories s = [] ->
    generateStory s = {| completion := Normal; after := s; timer := None |}.
Proof. intros number s E. unfold generateStory. now rewrite E. Qed.

Lemma generateStory_empty_returns_witness :
  memories initialState = []
  /\ generateStory initialState
     = {| completion := Normal; after := initialState; timer := None |}.
Proof.
  split; [reflexivity|].
  apply (@generateStory_empty_returns Z initialState). reflexivity.
Defined.

(** C6 as stated fails: on the empty initial state the call completes
    normally; it does not throw [InvalidOperation]. *)
Lemma generateStory_empty_not_rejected :
  completion (generateStory initialState) <> Throw (lit "InvalidOperation").
Proof. simpl. discriminate. Qed.

Lemma uniqueLocations_head (number : Type) (m : MemoryItem number)
  (rest : list (MemoryItem number)) :
  nth_error (uniqueLocations (m :: rest)) 0 = Some (name (location m)).
Proof. rewrite uniqueLocations_eq. reflexivity. Qed.

(** C5, as the code has it: when the timeline is not empty, the story that
    [generateStory] and its timer put on display is the heading lines, then
    the sections joined by line feeds, then the closing lines; there is
    exactly one section per entry of the timeline as it was at the call, in
    storage order (newest first), also when entries share a waypoint.  The
    section of a photo is the waypoint name, a fixed line and the map link;
    that of a voice note is the waypoint name, the content between corner
    brackets and the map link; the link is the query URL followed by the
    printed latitude, a comma and the printed longitude of the entry's
    waypoint.  The section of an entry of type ['text'] is the empty
    string. *)
Theorem one_section_per_entry :
  forall (number : Type) (Number_toString : number -> jsstring)
         (s s' : AppState number) (today : jsstring)
         (m : MemoryItem number) (rest : list (MemoryItem number)),
    memories s = m :: rest ->
    exists (job : StoryJob number) (sections : list jsstring),
      timer (generateStory s) = Some job
      /\ generatedStory (storyTimeout Number_toString job today s')
         = Some
             (LF ++ storyTitle (uniqueLocations (memories s))
              ++ LF
              ++ LF ++ lit "**📅 日期**：" ++ today
              ++ LF ++ lit "**📍 足跡**："
                    ++ join (lit " ➝ ") (uniqueLocations (memories s))
              ++ LF
              ++ LF ++ lit "---"
              ++ LF
              ++ LF ++ lit "### 🚶‍♂️ 旅遊路線圖 (Google Maps Timeline)"
              ++ LF ++ lit "*(此處模擬 Google Maps 路徑預覽)*"
              ++ LF ++ lit "> 系統已自動將您的 "
                    ++ digits (Z.of_nat (length (memories s)))
                    ++ lit " 個打卡點連成一條路徑。"
              ++ LF ++ lit "> [🔗 點擊查看 Google Maps 完整路線](https://www.google.com/maps/dir/"
                    ++ join (lit "/") (locationNames (memories s)) ++ lit ")"
              ++ LF
              ++ LF ++ lit "---"
              ++ LF
              ++ LF ++ lit "### 📸 旅途高光時刻"
              ++ LF
              ++ LF ++ join LF sections
              ++ LF
              ++ LF ++ lit "---"
              ++ LF ++ lit "*這篇遊記由 TravelMemory AI 自動彙整，結合了您的照片、語音口述與 Google Maps 足跡。*"
              ++ LF ++ lit "      ")
      /\ length sections = length (memories s)
      /\ (forall (k : nat) (e : MemoryItem number),
             nth_error (memories s) k = Some e ->
             nth_error sections k
             = Some
                 match type e with
                 | photo =>
                   LF ++ lit "**📍 " ++ name (location e) ++ lit "**"
                   ++ LF ++ lit "(📸 這裡拍下的照片捕捉了當下的氛圍)"
                   ++ LF ++ lit "> [🗺️ 查看地圖座標]("
                         ++ (lit "https://www.google.com/maps/search/?api=1&query="
                             ++ Number_toString (lat (location e)) ++ lit ","
                             ++ Number_toString (lng (location e)))
                         ++ lit ")"
                   ++ LF
                 | voice =>
                   LF ++ lit "**📍 " ++ name (location e) ++ lit "**"
                   ++ LF ++ lit "> 💭 語音筆記：「" ++ content e ++ lit "」"
                   ++ LF ++ lit "> [🗺️ 查看地圖座標]("
                         ++ (lit "https://www.google.com/maps/search/?api=1&query="
                             ++ Number_toString (lat (location e)) ++ lit ","
                             ++ Number_toString (lng (location e)))
                         ++ lit ")"
                   ++ LF
                 | text => []
                 end).
Proof.
  intros number toStr s s' today m rest H.
  exists {| job_memories := memories s;
            job_uniqueLocations := uniqueLocations (memories s) |},
         (map (storySection toStr) (memories s)).
  split; [now rewrite (generateStory_nonempty s H)|].
  split; [|split].
  - unfold storyTimeout, setIsGenerating, setGeneratedStory, story, storySections.
    cbn [generatedStory job_memories job_uniqueLocations]. reflexivity.
  - apply length_map.
  - intros k e E. rewrite nth_error_map, E. cbn [option_map]. f_equal.
    unfold storySection, voiceSection, photoSection, mapLink.
    destruct (type e); reflexivity.
Qed.

Lemma one_section_per_entry_witness :
  memories tokyoState
  = entryOf (photoAt Kyoto 1730548980000 (lit "blob:2"))
    :: rev (map (@entryOf Z) (firstn 3 tokyoTrip))
  /\ exists (job : StoryJob Z) (sections : list jsstring),
      timer (generateStory tokyoState) = Some job
      /\ length sections = 4
      /\ nth_error sections 1
         = Some (LF ++ lit "**📍 Tokyo**"
                 ++ LF ++ lit "> 💭 語音筆記：「back again」"
                 ++ LF ++ lit "> [🗺️ 查看地圖座標](https://www.google.com/maps/search/?api=1&query=36,140)"
                 ++ LF).
Proof.
  split; [reflexivity|].
  destruct (@one_section_per_entry Z digits tokyoState initialState
              (lit "2026/11/2")
              (entryOf (photoAt Kyoto 1730548980000 (lit "blob:2")))
              (rev (map (@entryOf Z) (firstn 3 tokyoTrip))) eq_refl)
    as (job & sections & T & G & L & S).
  exists job, sections. split; [exact T|]. split; [exact L|].
  exact (S 1 (entryOf (noteAt Tokyo 1730548920000 (lit "back again"))) eq_refl).
Defined.

(** C5 as stated fails: the section of an entry of type ['text'] is empty; it
    is not the entry's content between quotation marks, which is what a voice
    entry gets. *)
Lemma text_entry_has_empty_section :
  type typedNote = text
  /\ storySections digits [typedNote] = [[]]
  /\ storySection digits typedNote <> voiceSection digits typedNote.
Proof.
  split; [reflexivity|]. split; [reflexivity|].
  intros H. refute_by_evaluation H.
Qed.

(** C9: generate the story, let the timer fire, and generate again on the
    state this leaves, the timeline being what it was.  Both stories shown are
    the same text around the locale date printed in them: the same title
    before it, and after it the same waypoint sequence, the same count and
    the same sections, in number and content.  With the same date the two
    texts are equal. *)
Theorem generateStory_again_same_document :
  forall (number : Type) (Number_toString : number -> jsstring)
         (s : AppState number) (m : MemoryItem number)
         (rest : list (MemoryItem number)) (today1 today2 : jsstring),
    memories s = m :: rest ->
    exists (job1 job2 : StoryJob number) (before_date after_date : jsstring),
      timer (generateStory s) = Some job1
      /\ timer (generateStory
                  (storyTimeout Number_toString job1 today1 (after (generateStory s))))
         = Some job2
      /\ memories (storyTimeout Number_toString job1 today1 (after (generateStory s)))
         = memories s
      /\ before_date
         = LF ++ lit "# 🗺️ 旅程回憶錄：" ++ name (location m) ++ lit " 之旅"
           ++ LF
           ++ LF ++ lit "**📅 日期**："
      /\ after_date
         = LF ++ lit "**📍 足跡**："
              ++ join (lit " ➝ ") (uniqueLocations (memories s))
           ++ LF
           ++ LF ++ lit "---"
           ++ LF
           ++ LF ++ lit "### 🚶‍♂️ 旅遊路線圖 (Google Maps Timeline)"
           ++ LF ++ lit "*(此處模擬 Google Maps 路徑預覽)*"
           ++ LF ++ lit "> 系統已自動將您的 "
                 ++ digits (Z.of_nat (length (memories s)))
                 ++ lit " 個打卡點連成一條路徑。"
           ++ LF ++ lit "> [🔗 點擊查看 Google Maps 完整路線](https://www.google.com/maps/dir/"
                 ++ join (lit "/") (locationNames (memories s)) ++ lit ")"
           ++ LF
           ++ LF ++ lit "---"
           ++ LF
           ++ LF ++ lit "### 📸 旅途高光時刻"
           ++ LF
           ++ LF ++ join LF (storySections Number_toString (memories s))
           ++ LF
           ++ LF ++ lit "---"
           ++ LF ++ lit "*這篇遊記由 TravelMemory AI 自動彙整，結合了您的照片、語音口述與 Google Maps 足跡。*"
           ++ LF ++ lit "      "
      /\ generatedStory
           (storyTimeout Number_toString job1 today1 (after (generateStory s)))
         = Some (before_date ++ today1 ++ after_date)
      /\ generatedStory
           (storyTimeout Number_toString job2 today2
              (after (generateStory
                 (storyTimeout Number_toString job1 today1 (after (generateStory s))))))
         = Some (before_date ++ today2 ++ after_date)
      /\ length (storySections Number_toString (memories s)) = length (memories s).
Proof.
  intros number toStr s m rest today1 today2 H.
  assert (T : forall today (s0 : AppState number),
             generatedStory
               (storyTimeout toStr
                  {| job_memories := memories s;
                     job_uniqueLocations := uniqueLocations (memories s) |}
                  today s0)
             = Some ((LF ++ lit "# 🗺️ 旅程回憶錄：" ++ name (location m) ++ lit " 之旅"
                      ++ LF ++ LF ++ lit "**📅 日期**：")
                     ++ today
                     ++ LF ++ lit "**📍 足跡**："
                     ++ join (lit " ➝ ") (uniqueLocations (memories s))
                     ++ LF ++ LF ++ lit "---" ++ LF
                     ++ LF ++ lit "### 🚶‍♂️ 旅遊路線圖 (Google Maps Timeline)"
                     ++ LF ++ lit "*(此處模擬 Google Maps 路徑預覽)*"
                     ++ LF ++ lit "> 系統已自動將您的 "
                     ++ digits (Z.of_nat (length (memories s)))
                     ++ lit " 個打卡點連成一條路徑。"
                     ++ LF ++ lit "> [🔗 點擊查看 Google Maps 完整路線](https://www.google.com/maps/dir/"
                     ++ join (lit "/") (locationNames (memories s)) ++ lit ")"
                     ++ LF ++ LF ++ lit "---" ++ LF
                     ++ LF ++ lit "### 📸 旅途高光時刻" ++ LF
                     ++ LF ++ join LF (storySections toStr (memories s))
                     ++ LF ++ LF ++ lit "---"
                     ++ LF ++ lit "*這篇遊記由 TravelMemory AI 自動彙整，結合了您的照片、語音口述與 Google Maps 足跡。*"
                     ++ LF ++ lit "      ")).
  { intros today s0.
    assert (U : nth_error (uniqueLocations (memories s)) 0
                = Some (name (location m)))
      by (rewrite H; apply uniqueLocations_head).
    unfold storyTimeout, setIsGenerating, setGeneratedStory, story, storyTitle.
    cbn [generatedStory job_memories job_uniqueLocations].
    rewrite U. cbn [interpolate].
    rewrite <- !app_assoc. reflexivity. }
  rewrite (generateStory_nonempty s H). cbn [timer after].
  assert (M : memories
                (storyTimeout toStr
                   {| job_memories := memories s;
                      job_uniqueLocations := uniqueLocations (memories s) |}
                   today1 (setIsGenerating (fun _ => true) s))
              = memories s) by reflexivity.
  do 4 eexists. split; [reflexivity|]. split.
  { erewrite generateStory_nonempty by (rewrite M; exact H). reflexivity. }
  split; [exact M|]. split; [reflexivity|]. split; [reflexivity|].
  cbn [after]. rewrite M. split; [apply T|]. split; [apply T|].
  apply length_map.
Qed.

Lemma generateStory_again_same_document_witness :
  memories tokyoState
  = entryOf (photoAt Kyoto 1730548980000 (lit "blob:2"))
    :: rev (map (@entryOf Z) (firstn 3 tokyoTrip))
  /\ exists (job1 job2 : StoryJob Z) (before_date after_date : jsstring),
      timer (generateStory tokyoState) = Some job1
      /\ before_date
         = LF ++ lit "# 🗺️ 旅程回憶錄：" ++ lit "Kyoto" ++ lit " 之旅"
           ++ LF
           ++ LF ++ lit "**📅 日期**："
      /\ generatedStory
           (storyTimeout digits job1 (lit "2026/11/2") (after (generateStory tokyoState)))
         = Some (before_date ++ lit "2026/11/2" ++ after_date)
      /\ generatedStory
           (storyTimeout digits job2 (lit "2026/11/3")
              (after (generateStory
                 (storyTimeout digits job1 (lit "2026/11/2")
                    (after (generateStory tokyoState))))))
         = Some (before_date ++ lit "2026/11/3" ++ after_date).
Proof.
  split; [reflexivity|].
  destruct (@generateStory_again_same_document Z digits tokyoState
              (entryOf (photoAt Kyoto 1730548980000 (lit "blob:2")))
              (rev (map (@entryOf Z) (firstn 3 tokyoTrip)))
              (lit "2026/11/2") (lit "2026/11/3") eq_refl)
    as (job1 & job2 & pre & post & T1 & _ & _ & P & _ & G1 & G2 & _).
  exists job1, job2, pre, post. split; [exact T1|]. split; [exact P|].
  split; [exact G1 | exact G2].
Defined.

(** ** Further properties of the handlers *)

(** *** White space and [trim] *)

Lemma trimStart_idem (s : jsstring) : trimStart (trimStart s) = trimStart s.
Proof.
  induction s as [|c s IH]; simpl; [reflexivity|].
  destruct (isWhiteSpace c) eqn:W; [exact IH|]. simpl. now rewrite W.
Qed.

Lemma trimStart_nil_iff (s : jsstring) :
  trimStart s = [] <-> forallb isWhiteSpace s = true.
Proof.
  split; [|apply trimStart_nil_of_all_ws].
  induction s as [|c s IH]; simpl; [reflexivity|].
  destruct (isWhiteSpace c); [exact IH | discriminate].
Qed.

Lemma forallb_rev (A : Type) (f : A -> bool) (l : list A) :
  forallb f (rev l) = forallb f l.
Proof.
  induction l as [|a l IH]; simpl; [reflexivity|].
  rewrite forallb_app, IH. simpl. rewrite andb_true_r. apply andb_comm.
Qed.

Lemma trim_nil_iff (s : jsstring) :
  trim s = [] <-> forallb isWhiteSpace s = true.
Proof.
  unfold trim, trimEnd. split.
  - intros H. apply (f_equal (@rev N)) in H. rewrite rev_involutive in H.
    simpl in H. apply trimStart_nil_iff in H. rewrite forallb_rev in H.
    apply trimStart_nil_iff in H. rewrite trimStart_idem in H.
    now apply trimStart_nil_iff.
  - intros H. apply trimStart_nil_iff in H. rewrite H. reflexivity.
Qed.

Lemma truthy_trim (s : jsstring) : truthy (trim s) = hasText s.
Proof.
  unfold hasText. destruct (truthy (trim s)) eqn:T.
  - symmetry. destruct (existsb (fun c => negb (isWhiteSpace c)) s) eqn:E;
      [reflexivity|].
    apply truthy_true in T. exfalso. apply T, trim_nil_iff, forallb_forall.
    intros c Hc. destruct (isWhiteSpace c) eqn:W; [reflexivity|].
    assert (X : existsb (fun c => negb (isWhiteSpace c)) s = true).
    { apply existsb_exists. exists c. now rewrite W. }
    congruence.
  - symmetry. apply not_true_is_false. intros E.
    apply existsb_exists in E as (c & Hc & W).
    assert (N : trim s = []) by (destruct (trim s); [reflexivity | discriminate]).
    apply trim_nil_iff in N. rewrite forallb_forall in N.
    rewrite (N c Hc) in W. discriminate.
Qed.

Section TimelineFacts.

Variable number : Type.
Implicit Types (s : AppState number) (m : MemoryItem number).

Lemma filter_other_ids (id0 : jsstring) (ms : list (MemoryItem number)) :
  (forall m, In m ms -> id m <> id0) ->
  filter (fun m => negb (JS.eqb (id m) id0)) ms = ms.
Proof.
  intros H. apply forallb_filter_id, forallb_forall.
  intros m Hm. apply negb_true_iff, eqb_neq. now apply H.
Qed.

(** X1: a capture and then the deletion of its id give back the timeline the
    capture started from, when no entry of that timeline had this id. *)
Theorem delete_undoes_capture :
  forall (i : Insertion number) s,
    (forall m, In m (memories s) -> id m <> digits (Date_now (clock i))) ->
    memories (deleteMemory (digits (Date_now (clock i))) (insert i s))
    = memories s.
Proof.
  intros i s H. rewrite deleteMemory_memories, insert_memories. simpl.
  rewrite eqb_refl. simpl. now apply filter_other_ids.
Qed.

(** X2: deletions commute: the order in which two ids are deleted makes no
    difference to the state. *)
Theorem deleteMemory_commutes :
  forall (a b : jsstring) s,
    deleteMemory a (deleteMemory b s) = deleteMemory b (deleteMemory a s).
Proof.
  intros a b [ms r t g ig l]. unfold deleteMemory, setMemories. simpl.
  f_equal. apply filter_comm.
Qed.

(** X3: two captures whose [Date.now()] is the same share their id, and the
    bin of either card deletes both entries. *)
Theorem delete_takes_both_same_clock :
  forall (i1 i2 : Insertion number) s,
    Date_now (clock i1) = Date_now (clock i2) ->
    id (entryOf i1) = id (entryOf i2)
    /\ memories (deleteMemory (id (entryOf i2)) (insert i2 (insert i1 s)))
       = memories (deleteMemory (id (entryOf i2)) s).
Proof.
  intros i1 i2 s E. split; [simpl; now rewrite E|].
  rewrite !deleteMemory_memories, !insert_memories. simpl.
  rewrite E, eqb_refl. reflexivity.
Qed.

(** X4: when the ids of the timeline are pairwise distinct, deleting the id
    of an entry takes out that entry alone: those before it and those after
    it stay, in their order. *)
Theorem delete_takes_one_when_ids_distinct :
  forall s m,
    NoDup (map (@id number) (memories s)) ->
    In m (memories s) ->
    exists before rest,
      memories s = before ++ m :: rest
      /\ memories (deleteMemory (id m) s) = before ++ rest.
Proof.
  intros s m D Hin. apply in_split in Hin as (before & rest & E).
  exists before, rest. split; [exact E|].
  rewrite deleteMemory_memories, E, filter_app. simpl. rewrite eqb_refl. simpl.
  rewrite E, map_app in D. simpl in D. apply NoDup_remove_2 in D.
  rewrite !filter_other_ids; [reflexivity| |];
    intros x Hx Ex; apply D, in_or_app;
    [right | left]; rewrite <- Ex; now apply in_map.
Qed.

End TimelineFacts.

Lemma delete_undoes_capture_witness :
  (forall m, In m (memories tokyoState) ->
             id m <> digits (Date_now (clock (photoAt Paris 1730549100000 (lit "blob:3")))))
  /\ memories
       (deleteMemory (lit "1730549100000")
          (insert (photoAt Paris 1730549100000 (lit "blob:3")) tokyoState))
     = memories tokyoState.
Proof.
  assert (A : forall m, In m (memories tokyoState) ->
                id m <> digits (Date_now (clock (photoAt Paris 1730549100000 (lit "blob:3"))))).
  { intros m Hm E. vm_compute in Hm.
    repeat (destruct Hm as [<- | Hm]; [vm_compute in E; discriminate E|]).
    exact Hm. }
  split; [exact A|].
  exact (@delete_undoes_capture Z (photoAt Paris 1730549100000 (lit "blob:3"))
           tokyoState A).
Defined.

Lemma delete_takes_both_same_clock_witness :
  Date_now (clock (photoAt Tokyo 1730548800000 (lit "blob:1")))
  = Date_now (clock (noteAt Paris 1730548800000 (lit "same instant")))
  /\ memories
       (deleteMemory (lit "1730548800000")
          (insert (noteAt Paris 1730548800000 (lit "same instant"))
             (insert (photoAt Tokyo 1730548800000 (lit "blob:1")) initialState)))
     = [].
Proof.
  split; [reflexivity|].
  exact (proj2 (@delete_takes_both_same_clock Z
                  (photoAt Tokyo 1730548800000 (lit "blob:1"))
                  (noteAt Paris 1730548800000 (lit "same instant"))
                  initialState eq_refl)).
Defined.

Lemma delete_takes_one_when_ids_distinct_witness :
  NoDup (map (@id Z) (memories tokyoState))
  /\ In (entryOf (photoAt Paris 1730548860000 (lit "blob:1"))) (memories tokyoState)
  /\ exists before rest,
      memories tokyoState
      = before ++ entryOf (photoAt Paris 1730548860000 (lit "blob:1")) :: rest
      /\ memories (deleteMemory (lit "1730548860000") tokyoState) = before ++ rest.
Proof.
  assert (D : NoDup (map (@id Z) (memories tokyoState))).
  { vm_compute. repeat constructor; simpl; intuition discriminate. }
  assert (I : In (entryOf (photoAt Paris 1730548860000 (lit "blob:1")))
                (memories tokyoState)).
  { right. right. left. reflexivity. }
  split; [exact D|]. split; [exact I|].
  exact (@delete_takes_one_when_ids_distinct Z tokyoState
           (entryOf (photoAt Paris 1730548860000 (lit "blob:1"))) D I).
Defined.

(** *** The recognizer's events *)

Section SessionFacts.

Variable number : Type.
Implicit Types (s : AppState number).

Lemma setTranscript_append_nil s : setTranscript (fun prev => prev ++ []) s = s.
Proof. destruct s; unfold setTranscript; simpl. now rewrite app_nil_r. Qed.

(** X5: [onresult] reads [event.results] from [event.resultIndex] on: the
    results before that index have no effect, whatever they are, and an
    index at or past the end of the list makes the event a no-op. *)
Theorem onresult_reads_from_resultIndex :
  forall (old new : list SpeechRecognitionResult) (ev : SpeechRecognitionEvent) s,
    onresult {| resultIndex := length old; results := old ++ new |} s
    = onresult {| resultIndex := 0; results := new |} s
    /\ (length (results ev) <= resultIndex ev -> onresult ev s = s).
Proof.
  intros old new ev s. split.
  - unfold onresult. simpl. now rewrite skipn_app, skipn_all, Nat.sub_diag.
  - intros H. rewrite onresult_eq. unfold segments.
    rewrite skipn_all2 by exact H. apply setTranscript_append_nil.
Qed.

(** X6: whatever the state, a series of [onresult] events changes nothing
    but [transcript], and what it does to [transcript] is to append the text
    of the final results, in order; recording or not makes no difference. *)
Theorem onresult_only_appends_final_text :
  forall (evs : list SpeechRecognitionEvent) s,
    fold_left (fun st ev => onresult ev st) evs s
    = {| memories := memories s; isRecording := isRecording s;
         transcript := transcript s ++ finalText evs;
         generatedStory := generatedStory s; isGenerating := isGenerating s;
         currentLocation := currentLocation s |}.
Proof. intros evs s. rewrite onresult_all. reflexivity. Qed.

(** X7: stopping a session makes a voice entry exactly when the text of the
    final results has a code unit that is not white space; final results made
    of blanks and line ends alone are dropped like silence. *)
Theorem session_saves_iff_text :
  forall (evs : list SpeechRecognitionEvent) (c : Clock) s,
    isRecording s = false ->
    memories (session evs c s)
    = if hasText (finalText evs)
      then {| id := digits (Date_now c); type := voice;
              content := finalText evs; timestamp := new_Date c;
              location := currentLocation s |} :: memories s
      else memories s.
Proof.
  intros evs c s R. rewrite (session_eq evs c s R), truthy_trim.
  destruct (hasText (finalText evs)); reflexivity.
Qed.

(** X8: a voice entry is tagged with the location that is current when the
    recording is stopped, not the one where it was started. *)
Theorem voice_entry_has_location_at_stop :
  forall (evs : list SpeechRecognitionEvent) (c0 c : Clock)
         (loc : LocationData number) s,
    isRecording s = false ->
    hasText (finalText evs) = true ->
    memories
      (toggleRecording c
         (setCurrentLocation (fun _ => loc)
            (fold_left (fun st ev => onresult ev st) evs (toggleRecording c0 s))))
    = {| id := digits (Date_now c); type := voice; content := finalText evs;
         timestamp := new_Date c; location := loc |} :: memories s.
Proof.
  intros evs c0 c loc s R T. rewrite onresult_all.
  unfold toggleRecording at 2. rewrite R.
  unfold toggleRecording. simpl. rewrite truthy_trim, T. reflexivity.
Qed.

(** X9: a recognizer error ends the session without an entry: the timeline
    is the one the session started with, and the next press of the microphone
    starts a new session that forgets the text heard before the error. *)
Theorem error_discards_session :
  forall (evs : list SpeechRecognitionEvent) (c0 c : Clock) s,
    isRecording s = false ->
    isRecording
      (onerror (fold_left (fun st ev => onresult ev st) evs (toggleRecording c0 s)))
    = false
    /\ memories
         (onerror (fold_left (fun st ev => onresult ev st) evs (toggleRecording c0 s)))
       = memories s
    /\ toggleRecording c
         (onerror (fold_left (fun st ev => onresult ev st) evs (toggleRecording c0 s)))
       = toggleRecording c0 s.
Proof.
  intros evs c0 c s R. rewrite onresult_all.
  unfold toggleRecording at 1 2 4. rewrite R.
  unfold toggleRecording. simpl. rewrite R. repeat split.
Qed.

(** X10: while a session records, the live caption shows the text of the
    final results received so far, or the listening notice when there is
    none; interim results never show. *)
Theorem caption_shows_final_text_only :
  forall (evs : list SpeechRecognitionEvent) (c : Clock) s,
    isRecording s = false ->
    caption (fold_left (fun st ev => onresult ev st) evs (toggleRecording c s))
    = Some (if truthy (finalText evs) then finalText evs else lit "正在聆聽...").
Proof.
  intros evs c s R. rewrite onresult_all.
  unfold toggleRecording. rewrite R. reflexivity.
Qed.

End SessionFacts.

Lemma onresult_reads_from_resultIndex_witness :
  length (results (finalSegment (lit "late"))) <= 1
  /\ onresult {| resultIndex := 1; results := results (finalSegment (lit "late")) |}
       tokyoState
     = tokyoState.
Proof.
  split; [apply le_n|].
  exact (proj2
           (@onresult_reads_from_resultIndex Z [] []
              {| resultIndex := 1; results := results (finalSegment (lit "late")) |}
              tokyoState)
           (le_n 1)).
Defined.

Lemma session_saves_iff_text_witness :
  isRecording tokyoState = false
  /\ memories
       (session [finalSegment [32; 12288]%N; interimSegment (lit "uh");
                 finalSegment [10]%N] stopClock tokyoState)
     = memories tokyoState.
Proof.
  split; [reflexivity|].
  exact (@session_saves_iff_text Z
           [finalSegment [32; 12288]%N; interimSegment (lit "uh");
            finalSegment [10]%N] stopClock tokyoState eq_refl).
Defined.

Lemma voice_entry_has_location_at_stop_witness :
  isRecording initialState = false
  /\ hasText (finalText helloWorld) = true
  /\ map (@location Z)
       (memories
          (toggleRecording stopClock
             (setCurrentLocation (fun _ => Kyoto)
                (fold_left (fun st ev => onresult ev st) helloWorld
                   (toggleRecording stopClock
                      (setCurrentLocation (fun _ => Tokyo) initialState))))))
     = [Kyoto].
Proof.
  split; [reflexivity|]. split; [reflexivity|].
  rewrite (@voice_entry_has_location_at_stop Z helloWorld stopClock stopClock
             Kyoto (setCurrentLocation (fun _ => Tokyo) initialState)
             eq_refl eq_refl).
  reflexivity.
Defined.

Lemma error_discards_session_witness :
  isRecording tokyoState = false
  /\ memories
       (onerror (fold_left (fun st ev => onresult ev st) helloWorld
                   (toggleRecording stopClock tokyoState)))
     = memories tokyoState
  /\ transcript
       (toggleRecording stopClock
          (onerror (fold_left (fun st ev => onresult ev st) helloWorld
                      (toggleRecording stopClock tokyoState))))
     = [].
Proof.
  split; [reflexivity|].
  destruct (@error_discards_session Z helloWorld stopClock stopClock tokyoState
              eq_refl) as (_ & M & T).
  split; [exact M|]. rewrite T. reflexivity.
Defined.

Lemma caption_shows_final_text_only_witness :
  isRecording initialState = false
  /\ caption
       (fold_left (fun st ev => onresult ev st)
          [interimSegment (lit "Hel"); finalSegment (lit "Hello ");
           interimSegment (lit "wor")]
          (toggleRecording stopClock initialState))
     = Some (lit "Hello ")
  /\ caption
       (fold_left (fun st ev => onresult ev st) [interimSegment (lit "Hel")]
          (toggleRecording stopClock initialState))
     = Some (lit "正在聆聽...").
Proof.
  split; [reflexivity|]. split.
  - exact (@caption_shows_final_text_only Z
             [interimSegment (lit "Hel"); finalSegment (lit "Hello ");
              interimSegment (lit "wor")] stopClock initialState eq_refl).
  - reflexivity.
Defined.

(** ** The component over a run of events *)

Lemma Forall_filter_keeps (A : Type) (P : A -> Prop) (f : A -> bool) (l : list A) :
  Forall P l -> Forall P (filter f l).
Proof.
  rewrite !Forall_forall. intros H x Hx. apply filter_In in Hx as [Hx _]. auto.
Qed.

Lemma NoDup_map_filter_keeps (A B : Type) (g : A -> B) (f : A -> bool) (l : list A) :
  NoDup (map g l) -> NoDup (map g (filter f l)).
Proof.
  induction l as [|a l IH]; simpl; [auto|].
  intros D. apply NoDup_cons_iff in D as [Ha D].
  destruct (f a); simpl; [constructor|]; auto.
  intros H. apply Ha. apply in_map_iff in H as (x & E & Hx).
  apply filter_In in Hx as [Hx _]. rewrite <- E. now apply in_map.
Qed.

Lemma increasing_cons (a : Z) (r : list Z) :
  increasing (a :: r) = true ->
  increasing r = true /\ (forall b, hd_error r = Some b -> (a < b)%Z).
Proof.
  destruct r as [|b r]; simpl.
  - intros _. split; [reflexivity | discriminate].
  - intros H. apply andb_true_iff in H as [L I]. split; [exact I|].
    intros b' E. injection E as <-. now apply Z.ltb_lt.
Qed.

Section WorldFacts.

Variable number : Type.
Variable Number_toString : number -> jsstring.
Implicit Types (w : World number) (e : Event number) (m : MemoryItem number).

Lemma run_app (evs evs' : list (Event number)) w :
  run Number_toString (evs ++ evs') w = run Number_toString evs' (run Number_toString evs w).
Proof. apply fold_left_app. Qed.

(** What an event can do to the timeline: leave it, put one entry at its
    head, or filter it by id. *)
Lemma step_memories e w :
  memories (component (step Number_toString e w)) = memories (component w)
  \/ (exists m, memories (component (step Number_toString e w)) = m :: memories (component w)
                /\ captured m
                /\ exists c, id m = digits (Date_now c)
                             /\ In (Date_now c) (clockReadings [e]))
  \/ exists id0, memories (component (step Number_toString e w))
                 = filter (fun m => negb (JS.eqb (id m) id0)) (memories (component w)).
Proof.
  destruct e as [loc|c [f|]|ev| |c| |today|id0| ]; simpl.
  - now left.
  - right; left. eexists. split; [reflexivity|]. split; [exact I|].
    exists c. simpl. auto.
  - now left.
  - left. now rewrite onresult_eq.
  - now left.
  - unfold toggleRecording. destruct (isRecording (component w)); [|now left].
    destruct (truthy (trim (transcript (component w)))) eqn:T; [|now left].
    right; left. eexists. split; [reflexivity|]. split.
    + unfold captured. simpl. now apply truthy_true.
    + exists c. simpl. auto.
  - left. unfold generateStory.
    destruct (Nat.eqb (length (memories (component w))) 0); reflexivity.
  - left. destruct (pending w); reflexivity.
  - right; right. exists id0. reflexivity.
  - now left.
Qed.

Lemma step_captured e w :
  Forall (@captured number) (memories (component w)) ->
  Forall (@captured number) (memories (component (step Number_toString e w))).
Proof.
  intros H.
  destruct (step_memories e w) as [E | [(m & E & C & _) | (id0 & E)]]; rewrite E.
  - exact H.
  - now constructor.
  - now apply Forall_filter_keeps.
Qed.

Lemma run_captured (evs : list (Event number)) w :
  Forall (@captured number) (memories (component w)) ->
  Forall (@captured number) (memories (component (run Number_toString evs w))).
Proof.
  revert w; induction evs as [|e evs IH]; intros w H; simpl; [exact H|].
  apply IH, step_captured, H.
Qed.

(** X11: in every state the component reaches from a timeline of photos and
    non-blank voice notes (the empty one, for a start), each entry is again a
    photo or a voice note whose text is not blank; there is never an entry of
    type ['text'], so no section of a story is empty. *)
Theorem reachable_entries_are_captured :
  forall (evs : list (Event number)) w,
    Forall (@captured number) (memories (component w)) ->
    forall m, In m (memories (component (run Number_toString evs w))) ->
      (type m = photo
       /\ storySection Number_toString m = photoSection Number_toString m)
      \/ (type m = voice /\ trim (content m) <> []
          /\ storySection Number_toString m = voiceSection Number_toString m).
Proof.
  intros evs w H m Hm.
  pose proof (run_captured evs w H) as C. rewrite Forall_forall in C.
  specialize (C m Hm). unfold captured in C. unfold storySection.
  destruct (type m); simpl; [left | right | contradiction]; auto.
Qed.

Lemma step_overlay e w :
  (isGenerating (component w) = true -> pending w <> []) ->
  isGenerating (component (step Number_toString e w)) = true -> pending (step Number_toString e w) <> [].
Proof.
  intros H. destruct e as [loc|c [f|]|ev| |c| |today|id0| ]; simpl; try exact H.
  - now rewrite onresult_eq.
  - unfold toggleRecording. destruct (isRecording (component w)); [|exact H].
    destruct (truthy (trim (transcript (component w)))); exact H.
  - unfold generateStory.
    destruct (Nat.eqb (length (memories (component w))) 0); simpl.
    + rewrite app_nil_r. exact H.
    + intros _ E. apply app_eq_nil in E as [_ E]. discriminate E.
  - case_eq (pending w); simpl; [intros _; exact H | discriminate].
Qed.

(** X12: the loading overlay cannot stay for good: whenever [isGenerating]
    is set, a story timer is armed that will clear it. *)
Theorem overlay_has_a_timer :
  forall (evs : list (Event number)) w,
    (isGenerating (component w) = true -> pending w <> []) ->
    isGenerating (component (run Number_toString evs w)) = true -> pending (run Number_toString evs w) <> [].
Proof.
  intros evs; induction evs as [|e evs IH]; intros w H; simpl; [exact H|].
  apply IH, step_overlay, H.
Qed.

End WorldFacts.

Lemma reachable_entries_are_captured_witness :
  Forall (@captured Z) (memories (component startWorld))
  /\ In (entryOf (noteAt Paris 1730548820000 (lit "bonjour ")))
        (memories (component (run digits walk startWorld)))
  /\ storySection digits (entryOf (noteAt Paris 1730548820000 (lit "bonjour ")))
     = voiceSection digits (entryOf (noteAt Paris 1730548820000 (lit "bonjour "))).
Proof.
  assert (A : Forall (@captured Z) (memories (component startWorld)))
    by constructor.
  assert (B : In (entryOf (noteAt Paris 1730548820000 (lit "bonjour ")))
                (memories (component (run digits walk startWorld))))
    by (left; reflexivity).
  split; [exact A|]. split; [exact B|].
  destruct (@reachable_entries_are_captured Z digits walk startWorld A _ B)
    as [[T _] | (_ & _ & S)]; [discriminate T | exact S].
Defined.

Lemma overlay_has_a_timer_witness :
  (isGenerating (component startWorld) = true -> pending startWorld <> [])
  /\ isGenerating (component (run digits (firstn 9 walk) startWorld)) = true
  /\ pending (run digits (firstn 9 walk) startWorld) <> [].
Proof.
  assert (A : isGenerating (component startWorld) = true -> pending startWorld <> [])
    by discriminate.
  assert (B : isGenerating (component (run digits (firstn 9 walk) startWorld)) = true)
    by reflexivity.
  split; [exact A|]. split; [exact B|].
  exact (@overlay_has_a_timer Z digits (firstn 9 walk) startWorld A B).
Defined.

(** *** Stories and their timers *)

Section StoryFacts.

Variable number : Type.
Variable Number_toString : number -> jsstring.
Implicit Types (w : World number) (e : Event number) (s : AppState number).

Lemma generateStory_snapshot s :
  memories s <> [] ->
  generateStory s
  = {| completion := Normal; after := setIsGenerating (fun _ => true) s;
       timer := Some (snapshot s) |}.
Proof.
  intros H. destruct (memories s) as [|m rest] eqn:E; [contradiction|].
  now rewrite (generateStory_nonempty s E).
Qed.

(** An event other than the story button and the timer leaves the timers and
    [isGenerating] alone, and the story too unless it dismisses it. *)
Lemma step_quiet e w :
  quiet e = true ->
  pending (step Number_toString e w) = pending w
  /\ isGenerating (component (step Number_toString e w)) = isGenerating (component w)
  /\ (generatedStory (component (step Number_toString e w))
      = generatedStory (component w)
      \/ generatedStory (component (step Number_toString e w)) = None).
Proof.
  destruct e as [loc|c [f|]|ev| |c| |today|id0| ]; simpl; intros Q;
    try discriminate Q; rewrite ?onresult_eq; auto.
  unfold toggleRecording. destruct (isRecording (component w)); auto.
  destruct (truthy (trim (transcript (component w)))); auto.
Qed.

Lemma run_quiet (evs : list (Event number)) w :
  forallb (@quiet number) evs = true ->
  pending (run Number_toString evs w) = pending w
  /\ isGenerating (component (run Number_toString evs w))
     = isGenerating (component w).
Proof.
  revert w; induction evs as [|e evs IH]; intros w Q; simpl; [auto|].
  simpl in Q. apply andb_true_iff in Q as [Qe Q].
  destruct (step_quiet e w Qe) as (P & G & _).
  destruct (IH (step Number_toString e w) Q) as (P' & G').
  split; congruence.
Qed.

Lemma step_story_origin e w :
  Forall (fun job => exists s, memories s <> [] /\ job = snapshot s) (pending w) ->
  (forall t, generatedStory (component w) = Some t ->
     exists today s, memories s <> [] /\ t = story Number_toString today (snapshot s)) ->
  Forall (fun job => exists s, memories s <> [] /\ job = snapshot s)
    (pending (step Number_toString e w))
  /\ (forall t, generatedStory (component (step Number_toString e w)) = Some t ->
        exists today s,
          memories s <> [] /\ t = story Number_toString today (snapshot s)).
Proof.
  intros P G. destruct (quiet e) eqn:Q.
  - destruct (step_quiet e w Q) as (-> & _ & [-> | ->]); split; auto.
    discriminate.
  - destruct e; try discriminate Q; simpl.
    + unfold generateStory.
      destruct (Nat.eqb (length (memories (component w))) 0) eqn:N; simpl.
      * rewrite app_nil_r. auto.
      * split; [|exact G]. apply Forall_app. split; [exact P|].
        constructor; [|constructor]. exists (component w). split; [|reflexivity].
        intros E. rewrite E in N. discriminate N.
    + destruct (pending w) as [|job rest] eqn:E; simpl.
      * rewrite E. split; [constructor | exact G].
      * apply Forall_cons_iff in P as [(s & Hs & ->) P]. split; [exact P|].
        intros t Ht. injection Ht as <-. now exists today, s.
Qed.

(** X13: from a start with no story shown and no timer armed, every story
    the component ever shows was made from a snapshot that was not empty:
    its title names the waypoint of the snapshot's first entry and never reads
    "undefined". *)
Theorem shown_story_has_a_waypoint :
  forall (evs : list (Event number)) w,
    pending w = [] ->
    generatedStory (component w) = None ->
    forall t, generatedStory (component (run Number_toString evs w)) = Some t ->
      exists today m rest,
        t = story Number_toString today
              {| job_memories := m :: rest;
                 job_uniqueLocations := uniqueLocations (m :: rest) |}
        /\ storyTitle (uniqueLocations (m :: rest))
           = lit "# 🗺️ 旅程回憶錄：" ++ name (location m) ++ lit " 之旅".
Proof.
  intros evs w P G.
  assert (K : Forall (fun job => exists s, memories s <> [] /\ job = snapshot s)
                (pending (run Number_toString evs w))
              /\ (forall t,
                    generatedStory (component (run Number_toString evs w)) = Some t ->
                    exists today s, memories s <> []
                      /\ t = story Number_toString today (snapshot s))).
  { assert (P0 : Forall (fun job => exists s, memories s <> [] /\ job = snapshot s)
                   (pending w)) by (rewrite P; constructor).
    assert (G0 : forall t, generatedStory (component w) = Some t ->
                   exists today s, memories s <> []
                     /\ t = story Number_toString today (snapshot s))
      by (rewrite G; discriminate).
    clear P G. revert w P0 G0.
    induction evs as [|e evs IH]; intros w P0 G0; simpl; [auto|].
    destruct (step_story_origin e w P0 G0) as (P1 & G1). now apply IH. }
  intros t Ht. destruct K as (_ & K). destruct (K t Ht) as (today & s & N & ->).
  unfold snapshot. destruct (memories s) as [|m rest]; [contradiction|].
  exists today, m, rest. split; [reflexivity|].
  unfold storyTitle. now rewrite uniqueLocations_eq.
Qed.

(** X14: a story is made from the timeline as it was when the button was
    pressed.  Whatever captures, deletions and other events come before the
    timer fires, the story shown is that of the snapshot, and the overlay is
    then cleared. *)
Theorem story_is_of_the_snapshot :
  forall (evs : list (Event number)) w (today : jsstring),
    pending w = [] ->
    memories (component w) <> [] ->
    forallb (@quiet number) evs = true ->
    generatedStory
      (component (run Number_toString (GenerateClicked :: evs ++ [TimerFired today]) w))
    = Some (story Number_toString today (snapshot (component w)))
    /\ isGenerating
         (component (run Number_toString (GenerateClicked :: evs ++ [TimerFired today]) w))
       = false
    /\ pending (run Number_toString (GenerateClicked :: evs ++ [TimerFired today]) w)
       = [].
Proof.
  intros evs w today P N Q.
  set (w1 := step Number_toString GenerateClicked w).
  assert (E1 : pending w1 = [snapshot (component w)]).
  { unfold w1. simpl. now rewrite (generateStory_snapshot _ N), P. }
  change (run Number_toString (GenerateClicked :: evs ++ [TimerFired today]) w)
    with (run Number_toString (evs ++ [TimerFired today]) w1).
  rewrite run_app.
  destruct (run_quiet evs w1 Q) as (P' & _). rewrite E1 in P'.
  change (run Number_toString [TimerFired today] (run Number_toString evs w1))
    with (step Number_toString (TimerFired today) (run Number_toString evs w1)).
  unfold step. rewrite P'. simpl. repeat split.
Qed.

(** X15: when the button is pressed again before the first timer has fired,
    the first timer shows the first snapshot's story and clears the overlay
    although the second timer is still armed; the second timer then replaces
    the story by that of the second snapshot. *)
Theorem later_story_replaces_earlier :
  forall (evs : list (Event number)) w (d1 d2 : jsstring),
    pending w = [] ->
    memories (component w) <> [] ->
    forallb (@quiet number) evs = true ->
    memories (component (run Number_toString (GenerateClicked :: evs) w)) <> [] ->
    generatedStory
      (component (run Number_toString
                    (GenerateClicked :: evs ++ [GenerateClicked; TimerFired d1]) w))
    = Some (story Number_toString d1 (snapshot (component w)))
    /\ isGenerating
         (component (run Number_toString
                       (GenerateClicked :: evs ++ [GenerateClicked; TimerFired d1]) w))
       = false
    /\ pending (run Number_toString
                  (GenerateClicked :: evs ++ [GenerateClicked; TimerFired d1]) w)
       = [snapshot (component (run Number_toString (GenerateClicked :: evs) w))]
    /\ generatedStory
         (component (run Number_toString
                       (GenerateClicked :: evs
                        ++ [GenerateClicked; TimerFired d1; TimerFired d2]) w))
       = Some (story Number_toString d2
                 (snapshot (component (run Number_toString (GenerateClicked :: evs) w)))).
Proof.
  intros evs w d1 d2 P N Q N2.
  change (GenerateClicked :: evs ++ [GenerateClicked; TimerFired d1])
    with ((GenerateClicked :: evs) ++ [GenerateClicked; TimerFired d1]).
  change (GenerateClicked :: evs ++ [GenerateClicked; TimerFired d1; TimerFired d2])
    with ((GenerateClicked :: evs) ++ [GenerateClicked; TimerFired d1; TimerFired d2]).
  rewrite (run_app Number_toString (GenerateClicked :: evs)
             [GenerateClicked; TimerFired d1]),
    (run_app Number_toString (GenerateClicked :: evs)
       [GenerateClicked; TimerFired d1; TimerFired d2]).
  assert (P2 : pending (run Number_toString (GenerateClicked :: evs) w)
               = [snapshot (component w)]).
  { change (run Number_toString (GenerateClicked :: evs) w)
      with (run Number_toString evs (step Number_toString GenerateClicked w)).
    destruct (run_quiet evs (step Number_toString GenerateClicked w) Q) as (P' & _).
    rewrite P'. simpl. now rewrite (generateStory_snapshot _ N), P. }
  remember (run Number_toString (GenerateClicked :: evs) w) as w2 eqn:E2.
  clear E2. unfold run.
  cbn [fold_left step]. rewrite (generateStory_snapshot _ N2).
  cbn [timer after pending component]. rewrite P2.
  cbn [app pending component storyTimeout setIsGenerating setGeneratedStory
       generatedStory isGenerating].
  split; [reflexivity|]. split; [reflexivity|]. split; reflexivity.
Qed.

(** X16: the map button of a card opens the very URL that the story links
    to for that entry. *)
Theorem openMap_matches_story_link :
  forall m : MemoryItem number,
    openMap Number_toString (location m) = mapLink Number_toString m.
Proof. intros m. unfold openMap, mapLink. reflexivity. Qed.

End StoryFacts.

(** *** Ids over a run *)

Section IdFacts.

Variable number : Type.
Variable Number_toString : number -> jsstring.
Implicit Types (w : World number) (e : Event number).
Implicit Types (ms : list (MemoryItem number)).

Lemma ids_below_weaken (a b : Z) ms :
  (a < b)%Z ->
  Forall (fun m => exists z, id m = digits z /\ (z < a)%Z) ms ->
  Forall (fun m => exists z, id m = digits z /\ (z < b)%Z) ms.
Proof.
  intros L. apply Forall_impl. intros m (z & E & Hz).
  exists z. split; [exact E | lia].
Qed.

(** An event that reads no clock leaves the timeline or filters it. *)
Lemma ids_kept ms ms' (coming : list Z) :
  ms' = ms \/ (exists id0, ms' = filter (fun m => negb (JS.eqb (id m) id0)) ms) ->
  NoDup (map (@id number) ms) ->
  (forall b, hd_error coming = Some b ->
     Forall (fun m => exists z, id m = digits z /\ (z < b)%Z) ms) ->
  NoDup (map (@id number) ms')
  /\ (forall b, hd_error coming = Some b ->
        Forall (fun m => exists z, id m = digits z /\ (z < b)%Z) ms').
Proof.
  intros [-> | (id0 & ->)] D B; [auto|]. split.
  - now apply NoDup_map_filter_keeps.
  - intros b Hb. apply Forall_filter_keeps. now apply B.
Qed.

(** An event that reads the clock at [a] leaves the timeline or puts an
    entry with the id [digits a] at its head. *)
Lemma ids_captured ms ms' (a : Z) (coming : list Z) :
  ms' = ms \/ (exists m, ms' = m :: ms /\ id m = digits a) ->
  NoDup (map (@id number) ms) ->
  Forall (fun m => exists z, id m = digits z /\ (z < a)%Z) ms ->
  (forall b, hd_error coming = Some b -> (a < b)%Z) ->
  NoDup (map (@id number) ms')
  /\ (forall b, hd_error coming = Some b ->
        Forall (fun m => exists z, id m = digits z /\ (z < b)%Z) ms').
Proof.
  intros [-> | (m & -> & Em)] D B L.
  - split; [exact D|]. intros b Hb. eapply ids_below_weaken; eauto.
  - split.
    + simpl. constructor; [|exact D].
      intros Hin. apply in_map_iff in Hin as (x & Ex & Hx).
      rewrite Forall_forall in B. destruct (B x Hx) as (z & Ez & Hz).
      rewrite Em, Ez in Ex. apply digits_inj in Ex. lia.
    + intros b Hb. constructor.
      * exists a. split; [exact Em | now apply L].
      * eapply ids_below_weaken; eauto.
Qed.

Lemma toggleRecording_memories (c : Clock) (s : AppState number) :
  memories (toggleRecording c s) = memories s
  \/ exists m, memories (toggleRecording c s) = m :: memories s
               /\ id m = digits (Date_now c).
Proof.
  unfold toggleRecording. destruct (isRecording s); [|now left].
  destruct (truthy (trim (transcript s))); [|now left].
  right. eexists. split; reflexivity.
Qed.

Lemma handlePhotoUpload_memories (c : Clock) (file : option File) (s : AppState number) :
  memories (handlePhotoUpload c file s) = memories s
  \/ exists m, memories (handlePhotoUpload c file s) = m :: memories s
               /\ id m = digits (Date_now c).
Proof.
  destruct file; [|now left]. right. eexists. split; reflexivity.
Qed.

Lemma clockReadings_cons e (evs : list (Event number)) :
  clockReadings (e :: evs) = clockReadings [e] ++ clockReadings evs.
Proof. unfold clockReadings. simpl. now rewrite app_nil_r. Qed.

Lemma step_without_clock e w :
  clockReadings [e] = [] ->
  memories (component (step Number_toString e w)) = memories (component w)
  \/ (exists id0,
        memories (component (step Number_toString e w))
        = filter (fun m => negb (JS.eqb (id m) id0)) (memories (component w))).
Proof.
  destruct e as [loc|c file|ev| |c| |today|id0| ]; simpl; intros R;
    try discriminate R; auto.
  - left. now rewrite onresult_eq.
  - left. unfold generateStory.
    destruct (Nat.eqb (length (memories (component w))) 0); reflexivity.
  - left. destruct (pending w); reflexivity.
  - right. now exists id0.
Qed.

Lemma step_with_clock e w (a : Z) (r : list Z) :
  clockReadings [e] = a :: r ->
  r = []
  /\ (memories (component (step Number_toString e w)) = memories (component w)
      \/ exists m,
           memories (component (step Number_toString e w))
           = m :: memories (component w)
           /\ id m = digits a).
Proof.
  destruct e as [loc|c file|ev| |c| |today|id0| ]; simpl; intros R;
    try discriminate R; injection R as <- <-; split; try reflexivity.
  - apply handlePhotoUpload_memories.
  - apply toggleRecording_memories.
Qed.

Lemma run_ids_distinct (evs : list (Event number)) :
  forall w,
    increasing (clockReadings evs) = true ->
    NoDup (map (@id number) (memories (component w))) ->
    (forall b, hd_error (clockReadings evs) = Some b ->
       Forall (fun m => exists z, id m = digits z /\ (z < b)%Z)
         (memories (component w))) ->
    NoDup (map (@id number) (memories (component (run Number_toString evs w)))).
Proof.
  induction evs as [|e evs IH]; intros w I D B; [exact D|].
  change (run Number_toString (e :: evs) w)
    with (run Number_toString evs (step Number_toString e w)).
  rewrite clockReadings_cons in I, B.
  destruct (clockReadings [e]) as [|a r] eqn:R.
  - destruct (ids_kept (clockReadings evs) (step_without_clock e w R) D B)
      as [D' B'].
    now apply IH.
  - destruct (step_with_clock e w R) as [-> X]. simpl in I, B.
    apply increasing_cons in I as [I L].
    destruct (ids_captured (clockReadings evs) X D (B _ eq_refl) L) as [D' B'].
    now apply IH.
Qed.

(** X17: in a run that starts from an empty timeline and in which every
    capture handler reads a later [Date.now()] than the one before, the ids of
    the timeline are pairwise distinct at the end, whatever deletions, stories
    and other events the run has. *)
Theorem ids_distinct_when_clock_increases :
  forall (evs : list (Event number)) w,
    memories (component w) = [] ->
    increasing (clockReadings evs) = true ->
    NoDup (map (@id number) (memories (component (run Number_toString evs w)))).
Proof.
  intros evs w E I. apply run_ids_distinct; [exact I | |]; rewrite E.
  - constructor.
  - intros b _. constructor.
Qed.

End IdFacts.

Lemma shown_story_has_a_waypoint_witness :
  pending startWorld = []
  /\ generatedStory (component startWorld) = None
  /\ generatedStory (component (run digits walk startWorld))
     = Some (story digits (lit "2026/11/2")
               (snapshot (component (run digits (firstn 7 walk) startWorld))))
  /\ exists today m rest,
       story digits (lit "2026/11/2")
         (snapshot (component (run digits (firstn 7 walk) startWorld)))
       = story digits today
           {| job_memories := m :: rest;
              job_uniqueLocations := uniqueLocations (m :: rest) |}
       /\ storyTitle (uniqueLocations (m :: rest))
          = lit "# 🗺️ 旅程回憶錄：" ++ name (location m) ++ lit " 之旅".
Proof.
  assert (G : generatedStory (component (run digits walk startWorld))
              = Some (story digits (lit "2026/11/2")
                        (snapshot (component (run digits (firstn 7 walk) startWorld)))))
    by (vm_compute; reflexivity).
  split; [reflexivity|]. split; [reflexivity|]. split; [exact G|].
  exact (@shown_story_has_a_waypoint Z digits walk startWorld eq_refl eq_refl _ G).
Defined.

Lemma story_is_of_the_snapshot_witness :
  pending (run digits (firstn 7 walk) startWorld) = []
  /\ memories (component (run digits (firstn 7 walk) startWorld)) <> []
  /\ forallb (@quiet Z) [DeleteClicked (lit "1730548800000")] = true
  /\ generatedStory
       (component
          (run digits
             (GenerateClicked
              :: [DeleteClicked (lit "1730548800000")] ++ [TimerFired (lit "2026/11/2")])
             (run digits (firstn 7 walk) startWorld)))
     = Some (story digits (lit "2026/11/2")
               (snapshot (component (run digits (firstn 7 walk) startWorld))))
  /\ length (job_memories
               (snapshot (component (run digits (firstn 7 walk) startWorld)))) = 2
  /\ length (memories (component (run digits walk startWorld))) = 1.
Proof.
  assert (N : memories (component (run digits (firstn 7 walk) startWorld)) <> [])
    by (vm_compute; discriminate).
  split; [reflexivity|]. split; [exact N|]. split; [reflexivity|].
  split; [|split; reflexivity].
  exact (proj1 (@story_is_of_the_snapshot Z digits
                  [DeleteClicked (lit "1730548800000")]
                  (run digits (firstn 7 walk) startWorld) (lit "2026/11/2")
                  eq_refl N eq_refl)).
Defined.

Lemma later_story_replaces_earlier_witness :
  pending tokyoWorld = []
  /\ memories (component tokyoWorld) <> []
  /\ forallb (@quiet Z) [DeleteClicked (lit "1730548980000")] = true
  /\ memories
       (component
          (run digits [GenerateClicked; DeleteClicked (lit "1730548980000")] tokyoWorld))
     <> []
  /\ generatedStory
       (component
          (run digits
             (GenerateClicked
              :: [DeleteClicked (lit "1730548980000")]
                 ++ [GenerateClicked; TimerFired (lit "2026/11/2");
                     TimerFired (lit "2026/11/3")])
             tokyoWorld))
     = Some (story digits (lit "2026/11/3")
               (snapshot
                  (component
                     (run digits
                        [GenerateClicked; DeleteClicked (lit "1730548980000")]
                        tokyoWorld)))).
Proof.
  assert (N : memories (component tokyoWorld) <> [])
    by (vm_compute; discriminate).
  assert (N2 : memories
                 (component
                    (run digits [GenerateClicked; DeleteClicked (lit "1730548980000")]
                       tokyoWorld)) <> [])
    by (vm_compute; discriminate).
  split; [reflexivity|]. split; [exact N|]. split; [reflexivity|].
  split; [exact N2|].
  exact (proj2 (proj2 (proj2
           (@later_story_replaces_earlier Z digits
              [DeleteClicked (lit "1730548980000")] tokyoWorld
              (lit "2026/11/2") (lit "2026/11/3") eq_refl N eq_refl N2)))).
Defined.

Lemma ids_distinct_when_clock_increases_witness :
  memories (component startWorld) = []
  /\ increasing (clockReadings walk) = true
  /\ NoDup (map (@id Z) (memories (component (run digits walk startWorld)))).
Proof.
  split; [reflexivity|]. split; [reflexivity|].
  exact (@ids_distinct_when_clock_increases Z digits walk startWorld
           eq_refl eq_refl).
Defined.

(** *** Results outside a session *)

(** X18: results that reach [onresult] while the component is not recording
    (a late answer of the recognizer after the stop, say) are never saved:
    the next press of the microphone starts from an empty [transcript], in
    the very state it would have started in without them. *)
Theorem late_results_are_forgotten :
  forall (number : Type) (evs : list SpeechRecognitionEvent) (c : Clock)
         (s : AppState number),
    isRecording s = false ->
    memories (fold_left (fun st ev => onresult ev st) evs s) = memories s
    /\ toggleRecording c (fold_left (fun st ev => onresult ev st) evs s)
       = toggleRecording c s.
Proof.
  intros number evs c s R. rewrite onresult_all.
  unfold toggleRecording. simpl. rewrite R. split; reflexivity.
Qed.

Lemma late_results_are_forgotten_witness :
  isRecording (session helloWorld stopClock initialState) = false
  /\ toggleRecording stopClock
       (fold_left (fun st ev => onresult ev st) [finalSegment (lit "!")]
          (session helloWorld stopClock initialState))
     = toggleRecording stopClock (session helloWorld stopClock initialState).
Proof.
  split; [reflexivity|].
  exact (proj2 (@late_results_are_forgotten Z [finalSegment (lit "!")] stopClock
                  (session helloWorld stopClock initialState) eq_refl)).
Defined.
